(** * geocode_google.py: record parser, address resolver and batch driver

    A shallow embedding of [src/geocode_google.py].  Python strings are
    sequences of Unicode code points; the effects of the script (HTTP
    requests, console messages, writes to the output file, pauses) are
    recorded in a trace threaded through a small state-and-exception
    monad. *)

From Stdlib Require Import List NArith ZArith QArith String Ascii Bool Lia.
From Stdlib Require Import DecimalString.
Import ListNotations.
Local Open Scope list_scope.
Local Open Scope N_scope.

(** ** Python [str] *)

Definition char := N.
Definition str := list char.

(** An ASCII literal as a [str]. *)
Fixpoint py (s : string) : str :=
  match s with
  | EmptyString => []
  | String a s' => N_of_ascii a :: py s'
  end.

Definition quote : char := 34.
Definition comma : char := 44.
Definition newline : char := 10.

Fixpoint str_eqb (a b : str) : bool :=
  match a, b with
  | [], [] => true
  | x :: a', y :: b' => (x =? y) && str_eqb a' b'
  | _, _ => false
  end.

(** [str.isspace] for one character: the code points CPython lists in
    [_PyUnicode_IsWhitespace]. *)
Definition isspace (c : char) : bool :=
  ((9 <=? c) && (c <=? 13)) || ((28 <=? c) && (c <=? 32))
  || (c =? 133) || (c =? 160) || (c =? 5760)
  || ((8192 <=? c) && (c <=? 8202))
  || (c =? 8232) || (c =? 8233) || (c =? 8239) || (c =? 8287)
  || (c =? 12288).

Fixpoint lstrip_by (p : char -> bool) (s : str) : str :=
  match s with
  | [] => []
  | c :: s' => if p c then lstrip_by p s' else s
  end.

Fixpoint rstrip_by (p : char -> bool) (s : str) : str :=
  match s with
  | [] => []
  | c :: s' =>
      match rstrip_by p s' with
      | [] => if p c then [] else [c]
      | t => c :: t
      end
  end.

Definition strip_by (p : char -> bool) (s : str) : str :=
  rstrip_by p (lstrip_by p s).

(** [s.strip()] *)
Definition strip (s : str) : str := strip_by isspace s.

(** [s.strip(chars)] *)
Definition strip_chars (s chars : str) : str :=
  strip_by (fun c => existsb (N.eqb c) chars) s.

(** [s.startswith(p)] and [s.endswith(p)] *)
Fixpoint startswith (s p : str) {struct p} : bool :=
  match p, s with
  | [], _ => true
  | x :: p', y :: s' => (x =? y) && startswith s' p'
  | _ :: _, [] => false
  end.

Definition endswith (s p : str) : bool := startswith (rev s) (rev p).

(** [s.split(sep)] for a one-character separator. *)
Fixpoint split (s : str) (sep : char) : list str :=
  match s with
  | [] => [[]]
  | c :: s' =>
      if c =? sep then [] :: split s' sep
      else match split s' sep with
           | [] => [[c]]
           | w :: ws => (c :: w) :: ws
           end
  end.

(** [s.split(sep, 1)]: at most one cut, at the first separator. *)
Fixpoint split_1 (s : str) (sep : char) : list str :=
  match s with
  | [] => [[]]
  | c :: s' =>
      if c =? sep then [[]; s']
      else match split_1 s' sep with
           | w :: ws => (c :: w) :: ws
           | [] => [[c]]
           end
  end.

(** [sep.join(l)] *)
Fixpoint join (sep : str) (l : list str) : str :=
  match l with
  | [] => []
  | x :: l' =>
      match l' with
      | [] => x
      | _ :: _ => x ++ sep ++ join sep l'
      end
  end.

(** [s.replace(old, new)] for a non-empty [old]: scan from the left, and
    after a match skip the rest of the matched text. *)
Fixpoint replace_from (old new : str) (skip : nat) (s : str) : str :=
  match s with
  | [] => []
  | c :: s' =>
      match skip with
      | S k => replace_from old new k s'
      | O =>
          if startswith s old
          then new ++ replace_from old new (List.length old - 1) s'
          else c :: replace_from old new 0 s'
      end
  end.

Definition replace (s old new : str) : str := replace_from old new 0 s.

(** [s[1:-1]] *)
Definition slice_1_m1 (s : str) : str := removelast (tl s).

(** ** The Python runtime the script relies on *)

(** Floats and the Unicode case mapping are taken from the runtime. *)
Class Runtime : Type := {
  float : Type;
  float_of_int : Z -> option float;    (* float(n); None is OverflowError *)
  float_of_str : str -> option float;  (* float(s); None is ValueError *)
  float_nonzero : float -> bool;       (* bool(x) *)
  str_of_float : float -> str;         (* str(x) *)
  lower : str -> str                   (* s.lower() *)
}.

(** The exceptions the script can meet; all derive from [Exception]. *)
Inductive exn : Type :=
| RequestException (msg : str)   (* SESSION.get, raise_for_status, resp.json *)
| AttributeError
| KeyError
| IndexError
| TypeError
| ValueError
| OverflowError
| UnicodeEncodeError.            (* f_out.write *)

Inductive result (A : Type) : Type :=
| Ok (a : A)
| Raise (e : exn).
Arguments Ok {A} a.
Arguments Raise {A} e.

Definition rbind {A B} (r : result A) (k : A -> result B) : result B :=
  match r with
  | Ok a => k a
  | Raise e => Raise e
  end.

Definition of_option {A} (o : option A) (e : exn) : result A :=
  match o with
  | Some a => Ok a
  | None => Raise e
  end.

Declare Scope py_scope.
Delimit Scope py_scope with py.
Notation "x <-! c ;; k" := (rbind c (fun x => k))
  (at level 61, c at next level, right associativity) : py_scope.

(** ** The encoding of the output file *)

(** The characters of cp1251 above ASCII and outside the run of the
    Russian letters: what the bytes 0x80 to 0xBF stand for. The byte 0x98
    stands for nothing. *)
Definition cp1251_high : list char :=
  [1026; 1027; 8218; 1107; 8222; 8230; 8224; 8225; 8364; 8240; 1033; 8249;
   1034; 1036; 1035; 1039; 1106; 8216; 8217; 8220; 8221; 8226; 8211; 8212;
   8482; 1113; 8250; 1114; 1116; 1115; 1119; 160; 1038; 1118; 1032; 164;
   1168; 166; 167; 1025; 169; 1028; 171; 172; 173; 174; 1031; 176; 177;
   1030; 1110; 1169; 181; 182; 183; 1105; 8470; 1108; 187; 1112; 1029;
   1109; 1111].

(** A character that the codec cp1251 can encode. *)
Definition cp1251_char (c : char) : bool :=
  (c <? 128) || ((1040 <=? c) && (c <=? 1103)) || existsb (N.eqb c) cp1251_high.

(** A text that a file opened with [encoding=cp1251] takes. *)
Definition encodable (s : str) : bool := forallb cp1251_char s.

(** U+FFFD: what [errors=replace] puts, when the input file is read, for
    the byte 0x98. *)
Definition replacement_char : char := 65533.

(** A record whose row id and address can be encoded. *)
Definition encodable_record (r : str * str) : bool :=
  encodable (fst r) && encodable (snd r).

(** [DELAY_SEC = 0.2] *)
Definition DELAY_SEC : Q := (2 # 10)%Q.

Section Script.

Context {R : Runtime}.

(** *** Record parser *)

(** [parse_line]; the pair [(None, None)] is [None] here. *)
Definition parse_line (line : str) : option (str * str) :=
  let line := strip line in
  match line with
  | [] => None
  | _ :: _ =>
      if startswith (lower line) (py "id,") then None
      else
        match split_1 line comma with
        | [p0; p1] =>
            let row_id := strip p0 in
            let addr := strip p1 in
            let addr :=
              if startswith addr [quote] && endswith addr [quote]
              then slice_1_m1 addr else addr in
            let addr := replace addr [quote; quote] [quote] in
            Some (row_id, addr)
        | _ => Some (strip line, [])
        end
  end.

(** *** Decoded JSON values *)

#[warnings="-register-all"]
Inductive json : Type :=
| JNull
| JBool (b : bool)
| JInt (z : Z)
| JFloat (f : float)
| JStr (s : str)
| JArr (l : list json)
| JObj (kv : list (str * json)).

Fixpoint dict_lookup (kv : list (str * json)) (k : str) : option json :=
  match kv with
  | [] => None
  | (k', v) :: kv' => if str_eqb k' k then Some v else dict_lookup kv' k
  end.

(** [d.get(k, default)] *)
Definition py_get (d : json) (k : str) (default : json) : result json :=
  match d with
  | JObj kv =>
      Ok (match dict_lookup kv k with Some v => v | None => default end)
  | _ => Raise AttributeError
  end.

(** [x[k]] for a string key *)
Definition py_item (x : json) (k : str) : result json :=
  match x with
  | JObj kv => of_option (dict_lookup kv k) KeyError
  | _ => Raise TypeError
  end.

(** [x[0]] *)
Definition py_item0 (x : json) : result json :=
  match x with
  | JArr (y :: _) => Ok y
  | JArr [] => Raise IndexError
  | JStr (c :: _) => Ok (JStr [c])
  | JStr [] => Raise IndexError
  | JObj _ => Raise KeyError
  | _ => Raise TypeError
  end.

(** [bool(x)] *)
Definition truthy (x : json) : bool :=
  match x with
  | JNull => false
  | JBool b => b
  | JInt z => negb (z =? 0)%Z
  | JFloat f => float_nonzero f
  | JStr s => match s with [] => false | _ :: _ => true end
  | JArr l => match l with [] => false | _ :: _ => true end
  | JObj kv => match kv with [] => false | _ :: _ => true end
  end.

(** [float(x)] *)
Definition py_float (x : json) : result float :=
  match x with
  | JFloat f => Ok f
  | JInt z => of_option (float_of_int z) OverflowError
  | JBool b => of_option (float_of_int (if b then 1 else 0)%Z) OverflowError
  | JStr s => of_option (float_of_str s) ValueError
  | _ => Raise TypeError
  end.

(** [x == lit] for a string literal *)
Definition eq_str (x : json) (lit : str) : bool :=
  match x with
  | JStr s => str_eqb s lit
  | _ => false
  end.

(** *** Effects *)

Inductive message : Type :=
| MsgFallback (candidate : str)
| MsgTry (candidate : str) (status : json)
| MsgNotFound (original : str)
| MsgEmpty (row_id : str)
| MsgResult (row_id addr : str) (lat lng : option float)
| MsgError (row_id addr : str) (e : exn)
| MsgNoInput.

Inductive event : Type :=
| EvGet (address key : str)   (* SESSION.get(BASE_URL, params=...) *)
| EvPrint (m : message)       (* print(...) *)
| EvWrite (s : str)           (* f_out.write(s) that took the text *)
| EvFlush                     (* f_out.flush() *)
| EvSleep (seconds : Q).      (* time.sleep(seconds) *)

Definition trace := list event.

(** What [SESSION.get], [raise_for_status] and [resp.json] deliver. *)
Inductive http_outcome : Type :=
| Fault (e : exn)
| Body (data : json).

Definition M (A : Type) : Type := trace -> result A * trace.

Definition ret {A} (a : A) : M A := fun tr => (Ok a, tr).

Definition bind {A B} (c : M A) (k : A -> M B) : M B :=
  fun tr =>
    match c tr with
    | (Ok a, tr') => k a tr'
    | (Raise e, tr') => (Raise e, tr')
    end.

Definition lift {A} (r : result A) : M A := fun tr => (r, tr).

Definition emit (e : event) : M unit := fun tr => (Ok tt, tr ++ [e]).

(** [f_out.write(s)]. The output file is opened with [encoding=cp1251]
    and no [errors] argument: a text with a character outside cp1251
    makes the call raise, and nothing of the text is written. *)
Definition f_out_write (s : str) : M unit :=
  fun tr =>
    if encodable s then (Ok tt, tr ++ [EvWrite s])
    else (Raise UnicodeEncodeError, tr).

(** [try: c except Exception as e: h e] *)
Definition try_except {A} (c : M A) (h : exn -> M A) : M A :=
  fun tr =>
    match c tr with
    | (Ok a, tr') => (Ok a, tr')
    | (Raise e, tr') => h e tr'
    end.

Notation "x <- c ;; k" := (bind c (fun x => k))
  (at level 61, c at next level, right associativity) : py_scope.
Notation "c ;; k" := (bind c (fun _ => k))
  (at level 61, right associativity) : py_scope.
Local Open Scope py_scope.

(** *** The geocoding service *)

(** The module global [GOOGLE_API_KEY] that [geocode_once] reads. The
    file holds no assignment to it ([load_api_key] is defined and never
    called), so the key is a parameter here. *)
Variable GOOGLE_API_KEY : str.

(** The service: its answer to a request may depend on all that
    happened before. *)
Variable SESSION_get : trace -> str -> str -> http_outcome.

Definition session_get (addr : str) : M json :=
  fun tr =>
    let tr' := tr ++ [EvGet addr GOOGLE_API_KEY] in
    match SESSION_get tr addr GOOGLE_API_KEY with
    | Fault e => (Raise e, tr')
    | Body data => (Ok data, tr')
    end.

(** [loc = results[0][geometry][location]] and the two [float(...)]
    of the [return]. *)
Definition first_location (results : json) : result (float * float) :=
  r0 <-! py_item0 results ;;
  geometry <-! py_item r0 (py "geometry") ;;
  loc <-! py_item geometry (py "location") ;;
  lat_v <-! py_item loc (py "lat") ;;
  lat <-! py_float lat_v ;;
  lng_v <-! py_item loc (py "lng") ;;
  lng <-! py_float lng_v ;;
  Ok (lat, lng).

(** [geocode_once], from [status = data.get(...)] on. *)
Definition decode (data : json)
  : result (option float * option float * json) :=
  status <-! py_get data (py "status") (JStr (py "UNKNOWN")) ;;
  if negb (eq_str status (py "OK")) then Ok (None, None, status)
  else
    results <-! py_get data (py "results") (JArr []) ;;
    if negb (truthy results) then Ok (None, None, status)
    else
      ll <-! first_location results ;;
      Ok (Some (fst ll), Some (snd ll), status).

Definition geocode_once (addr : str)
  : M (option float * option float * json) :=
  data <- session_get addr ;;
  lift (decode data).

(** *** Address resolver *)

(** [original]: [addr.strip()], then [strip] with the double quote as
    its argument. *)
Definition original_of (addr : str) : str :=
  strip_chars (strip addr) [quote].

(** [parts]: [p.strip()] for each [p] of [original.split(comma)] whose
    [p.strip()] is not empty. *)
Definition segments (original : str) : list str :=
  filter (fun p => match p with [] => false | _ :: _ => true end)
         (map strip (split original comma)).

Definition candidate_of (parts : list str) (n : nat) : str :=
  join (py ", ") (firstn n parts).

(** The body of [for n in range(len(parts), 0, -1)], from [n] down.
    [Some] is a [return] inside the loop; [None] is leaving the loop, by
    [break] or at the end of the range. *)
Fixpoint trimming_loop (original : str) (parts : list str) (n : nat)
  : M (option (option float * option float)) :=
  match n with
  | O => ret None
  | S m =>
      let candidate := candidate_of parts n in
      r <- geocode_once candidate ;;
      let '(lat, lng, status) := r in
      if eq_str status (py "OK") then
        (if negb (str_eqb candidate original)
         then emit (EvPrint (MsgFallback candidate))
         else ret tt) ;;
        ret (Some (lat, lng))
      else
        emit (EvPrint (MsgTry candidate status)) ;;
        if negb (eq_str status (py "ZERO_RESULTS") || eq_str status (py "OK"))
        then ret None
        else trimming_loop original parts m
  end.

Definition geocode_with_trimming (addr : str)
  : M (option float * option float) :=
  let original := original_of addr in
  match original with
  | [] => ret (None, None)
  | _ :: _ =>
      let parts := segments original in
      match parts with
      | [] => ret (None, None)
      | _ :: _ =>
          r <- trimming_loop original parts (List.length parts) ;;
          match r with
          | Some ll => ret ll
          | None =>
              emit (EvPrint (MsgNotFound original)) ;;
              ret (None, None)
          end
      end
  end.

(** *** Batch driver *)

Definition coord_str (x : option float) : str :=
  match x with
  | None => []
  | Some v => str_of_float v
  end.

(** The row written for a resolved or unresolved record: the row id, the
    address between double quotes with each inner quote doubled, and
    the two coordinates. *)
Definition output_row (row_id addr : str) (lat lng : option float) : str :=
  let safe_addr := replace addr [quote] [quote; quote] in
  row_id ++ [comma; quote] ++ safe_addr ++ [quote; comma]
    ++ coord_str lat ++ [comma] ++ coord_str lng ++ [newline].

(** One turn of [for line in f_in]. *)
Definition main_step (line : str) : M unit :=
  match parse_line line with
  | None => ret tt
  | Some (row_id, addr) =>
      match addr with
      | [] =>
          emit (EvPrint (MsgEmpty row_id)) ;;
          f_out_write (row_id ++ [comma; quote; quote; comma; comma; newline]) ;;
          emit EvFlush
      | _ :: _ =>
          ll <- try_except
                  (ll <- geocode_with_trimming addr ;;
                   emit (EvPrint (MsgResult row_id addr (fst ll) (snd ll))) ;;
                   ret ll)
                  (fun e =>
                     emit (EvPrint (MsgError row_id addr e)) ;;
                     ret (None, None)) ;;
          f_out_write (output_row row_id addr (fst ll) (snd ll)) ;;
          emit EvFlush ;;
          emit (EvSleep DELAY_SEC)
      end
  end.

Fixpoint main_loop (f_in : list str) : M unit :=
  match f_in with
  | [] => ret tt
  | line :: rest => main_step line ;; main_loop rest
  end.

(** [main]; [None] is a missing input file. *)
Definition main (input : option (list str)) : M unit :=
  match input with
  | None => emit (EvPrint MsgNoInput)
  | Some f_in =>
      f_out_write (py "id,address,lat,lng" ++ [newline]) ;;
      main_loop f_in
  end.

(** *** Reading a trace *)

Definition is_get (e : event) : bool :=
  match e with EvGet _ _ => true | _ => false end.

Definition is_sleep (e : event) : bool :=
  match e with EvSleep _ => true | _ => false end.

(** The strings written to the output file, in order. *)
Fixpoint written (tr : trace) : list str :=
  match tr with
  | [] => []
  | EvWrite s :: tr' => s :: written tr'
  | _ :: tr' => written tr'
  end.

(** The events a resolver call can add to the trace. *)
Definition resolver_event (e : event) : bool :=
  match e with EvGet _ _ | EvPrint _ => true | _ => false end.

(** Pacing: no request is sent while an earlier one has not been
    followed by a pause. *)
Fixpoint paced_from (pending : bool) (tr : trace) : bool :=
  match tr with
  | [] => true
  | EvGet _ _ :: tr' => negb pending && paced_from true tr'
  | EvSleep _ :: tr' => paced_from false tr'
  | _ :: tr' => paced_from pending tr'
  end.

Definition paced (tr : trace) : bool := paced_from false tr.

(** *** Input records *)

(** A line that is neither blank nor a header. *)
Definition is_record (line : str) : bool :=
  match strip line with
  | [] => false
  | _ :: _ => negb (startswith (lower (strip line)) (py "id,"))
  end.

Definition records (f_in : list str) : list (str * str) :=
  flat_map (fun line => match parse_line line with
                        | Some r => [r]
                        | None => []
                        end) f_in.

(** What a request that is answered [o] makes [geocode_once] return. *)
Definition reply (o : http_outcome)
  : result (option float * option float * json) :=
  match o with
  | Fault e => Raise e
  | Body data => decode data
  end.

(** Whether the loop goes on to the next shorter candidate after [r]. *)
Definition goes_on (r : result (option float * option float * json)) : bool :=
  match r with
  | Ok (_, _, status) =>
      negb (eq_str status (py "OK")) && eq_str status (py "ZERO_RESULTS")
  | Raise _ => false
  end.

(** What the resolver returns when [r] is the answer to its last request. *)
Definition final (r : result (option float * option float * json))
  : result (option float * option float) :=
  match r with
  | Raise e => Raise e
  | Ok (lat, lng, status) =>
      if eq_str status (py "OK") then Ok (lat, lng) else Ok (None, None)
  end.

(** What the loop hands back when [r] is the answer to its last request. *)
Definition left_loop (r : result (option float * option float * json))
  : result (option (option float * option float)) :=
  match r with
  | Raise e => Raise e
  | Ok (lat, lng, status) =>
      if eq_str status (py "OK") then Ok (Some (lat, lng)) else Ok None
  end.

(** No request in a stretch of the trace. *)
Definition no_get (tr : trace) : bool :=
  forallb (fun e => negb (is_get e)) tr.

(** The coordinates [main] goes on with after the [try]: those the
    resolver returned, or none when it raised. *)
Definition resolved (r : result (option float * option float))
  : option float * option float :=
  match r with
  | Ok ll => ll
  | Raise _ => (None, None)
  end.

(** The console message of the [try] or of its [except]. *)
Definition turn_message (row_id addr : str)
    (r : result (option float * option float)) : message :=
  match r with
  | Ok ll => MsgResult row_id addr (fst ll) (snd ll)
  | Raise e => MsgError row_id addr e
  end.

(** [str] of a float is text that the output file takes. *)
Definition float_text_encodable : Prop :=
  forall x : float, encodable (str_of_float x) = true.

End Script.

(** ** A small runtime and service to run the script on *)

Definition ascii_lower (s : str) : str :=
  map (fun c => if (65 <=? c) && (c <=? 90) then c + 32 else c) s.

Definition digits (n : N) : str := py (NilZero.string_of_uint (N.to_uint n)).

(** Coordinates as hundredths of a degree. *)
Definition demo_str_of_float (z : Z) : str :=
  let a := Z.to_N (Z.abs z) in
  (if (z <? 0)%Z then py "-" else [])
    ++ digits (a / 100) ++ py "."
    ++ digits ((a mod 100) / 10) ++ digits (a mod 10).

Definition demo_runtime : Runtime := {|
  float := Z;
  float_of_int := fun z => Some (z * 100)%Z;
  float_of_str := fun _ => None;
  float_nonzero := fun z => negb (z =? 0)%Z;
  str_of_float := demo_str_of_float;
  lower := ascii_lower
|}.

Definition ok_body (lat lng : Z) : @json demo_runtime :=
  JObj [(py "status", JStr (py "OK"));
        (py "results",
         JArr [JObj [(py "geometry",
                      JObj [(py "location",
                             JObj [(py "lat", JFloat (lat : @float demo_runtime));
                                   (py "lng", JFloat (lng : @float demo_runtime))])])]])].

Definition status_body (status : string) : @json demo_runtime :=
  JObj [(py "status", JStr (py status)); (py "results", JArr [])].

Definition demo_key : str := py "k".

Definition demo_service (tr : @trace demo_runtime) (address key : str)
  : @http_outcome demo_runtime :=
  if str_eqb address (py "Moscow, Central District, Main St 1")
  then Body (ok_body 5575 3761)
  else if str_eqb address (py "Some Address")
  then Fault (RequestException (py "timed out"))
  else if str_eqb address (py "Quota")
  then Body (status_body "OVER_QUERY_LIMIT")
  else if str_eqb address (py "Nowhere")
  then Body (status_body "OK")
  else Body (status_body "ZERO_RESULTS").

Definition demo_resolve := @geocode_with_trimming demo_runtime demo_key demo_service.
Definition demo_main := @main demo_runtime demo_key demo_service.

(** ** Loading the key *)

(** What reading [google_api_key.txt] gives: no such file, a failure of
    [read_text], or the text of the file. *)
Inductive read_outcome : Type :=
| NoFile
| Unreadable (why : str)
| Text (s : str).

(** How [load_api_key] ends: with a key, with [SystemExit], or with the
    failure of [read_text]. *)
Inductive startup : Type :=
| Key (key : str)
| SystemExit (msg : str)
| ReadError (why : str).

(** The text given to [SystemExit]. *)
Definition key_not_found : str :=
  py "Google API key "
  ++ [1085; 1077]
  ++ py " "
  ++ [1085; 1072; 1081; 1076; 1077; 1085]
  ++ py ". "
  ++ [1047; 1072; 1076; 1072; 1081; 1090; 1077]
  ++ py " "
  ++ [1087; 1077; 1088; 1077; 1084; 1077; 1085; 1085; 1091; 1102]
  ++ py " "
  ++ [1086; 1082; 1088; 1091; 1078; 1077; 1085; 1080; 1103]
  ++ py " GOOGLE_API_KEY "
  ++ [1080; 1083; 1080]
  ++ py " "
  ++ [1089; 1086; 1079; 1076; 1072; 1081; 1090; 1077]
  ++ py " "
  ++ [1092; 1072; 1081; 1083]
  ++ py " google_api_key.txt "
  ++ [1089]
  ++ py " "
  ++ [1082; 1083; 1102; 1095; 1086; 1084]
  ++ py " "
  ++ [1074; 1085; 1091; 1090; 1088; 1080]
  ++ py ".".

(** [load_api_key]; [environ_key] is [GOOGLE_API_KEY] in [os.environ], if
    it is set. *)
Definition load_api_key (environ_key : option str) (key_file : read_outcome)
  : startup :=
  let key := strip (match environ_key with Some v => v | None => [] end) in
  match key with
  | _ :: _ => Key key
  | [] =>
      match key_file with
      | NoFile => SystemExit key_not_found
      | Unreadable why => ReadError why
      | Text s =>
          let key := strip s in
          match key with
          | _ :: _ => Key key
          | [] => SystemExit key_not_found
          end
      end
  end.

(** ** More ways to read a trace *)

Section Reading.

Context {R : Runtime}.

(** The requests of a trace, in order, each with the key it carried. *)
Fixpoint requests (tr : trace) : list (str * str) :=
  match tr with
  | [] => []
  | EvGet a k :: tr' => (a, k) :: requests tr'
  | _ :: tr' => requests tr'
  end.

(** The number of pauses in a trace. *)
Definition pauses (tr : trace) : nat := List.length (filter is_sleep tr).

(** Every write is followed at once by a flush. *)
Fixpoint flushed (tr : trace) : bool :=
  match tr with
  | [] => true
  | EvWrite _ :: tr' =>
      match tr' with
      | EvFlush :: _ => flushed tr'
      | _ => false
      end
  | _ :: tr' => flushed tr'
  end.

(** A record whose address is not empty, that is, one handed to the
    resolver. *)
Definition has_address (r : str * str) : bool :=
  match snd r with [] => false | _ :: _ => true end.

End Reading.

(** What the parts of a candidate look like: not empty, trimmed, without
    a comma. *)
Definition tidy (p : str) : Prop :=
  p <> [] /\ strip p = p /\ ~ In comma p.

(** An input line for a row id and an address: the address between
    double quotes, each inner quote doubled. *)
Definition quoted_line (row_id addr : str) : str :=
  row_id ++ [comma; quote] ++ replace addr [quote] [quote; quote]
    ++ [quote; newline].

(** * Facts *)

(** ** Strings *)

Lemma str_eqb_eq (a b : str) : str_eqb a b = true <-> a = b.
Proof.
  revert b; induction a as [|x a IH]; intros [|y b]; simpl;
    try (split; [discriminate | discriminate]); [tauto|].
  rewrite andb_true_iff, N.eqb_eq, IH.
  split; [intros [-> ->]; reflexivity | intros H; injection H; auto].
Qed.

Lemma str_eqb_refl (a : str) : str_eqb a a = true.
Proof. apply str_eqb_eq; reflexivity. Qed.

Section Strip.

Variable p : char -> bool.

Lemma lstrip_by_split (s : str) :
  exists l, s = l ++ lstrip_by p s /\ forallb p l = true.
Proof.
  induction s as [|c s [l [Hs Hl]]]; simpl.
  - exists []; auto.
  - destruct (p c) eqn:Hc.
    + exists (c :: l); simpl; rewrite Hc, Hl; split; [congruence | reflexivity].
    + exists []; auto.
Qed.

Lemma lstrip_by_hd (s : str) c t : lstrip_by p s = c :: t -> p c = false.
Proof.
  induction s as [|x s IH]; simpl; [discriminate|].
  destruct (p x) eqn:Hx; [exact IH|].
  intros H; injection H as <- _; exact Hx.
Qed.

Lemma lstrip_by_fix (s : str) c t : s = c :: t -> p c = false -> lstrip_by p s = s.
Proof. intros -> H; simpl; rewrite H; reflexivity. Qed.

Lemma rstrip_by_split (s : str) :
  exists r, s = rstrip_by p s ++ r /\ forallb p r = true.
Proof.
  induction s as [|c s [r [Hs Hr]]]; simpl.
  - exists []; auto.
  - destruct (rstrip_by p s) as [|y t] eqn:E.
    + destruct (p c) eqn:Hc.
      * exists (c :: r); simpl in *; rewrite Hc, Hr; split; [congruence | reflexivity].
      * exists r; simpl in *; split; [congruence | assumption].
    + exists r; split; [simpl; f_equal; exact Hs | assumption].
Qed.

Lemma rstrip_by_last (s : str) t c : rstrip_by p s = t ++ [c] -> p c = false.
Proof.
  revert t; induction s as [|x s IH]; intros t; simpl.
  - destruct t; discriminate.
  - destruct (rstrip_by p s) as [|y r] eqn:E.
    + destruct (p x) eqn:Hx.
      * destruct t; discriminate.
      * destruct t as [|z [|z' t]]; simpl; try discriminate.
        intros H; injection H as <-; exact Hx.
    + destruct t as [|z t]; simpl; [discriminate|].
      intros H; injection H as _ H; exact (IH _ H).
Qed.

Lemma rstrip_by_keeps_hd (c : char) (t : str) :
  p c = false -> exists t', rstrip_by p (c :: t) = c :: t'.
Proof.
  intros Hc; simpl.
  destruct (rstrip_by p t); [rewrite Hc|]; eauto.
Qed.

Lemma rstrip_by_idem (s : str) : rstrip_by p (rstrip_by p s) = rstrip_by p s.
Proof.
  induction s as [|c s IH]; simpl; [reflexivity|].
  destruct (rstrip_by p s) as [|y t] eqn:E.
  - destruct (p c) eqn:Hc; simpl; [reflexivity | rewrite Hc; reflexivity].
  - change (rstrip_by p (c :: y :: t)) with
      (match rstrip_by p (y :: t) with
       | [] => if p c then [] else [c]
       | z :: r => c :: z :: r
       end).
    rewrite IH; reflexivity.
Qed.

Lemma strip_by_split (s : str) :
  exists l r, s = l ++ strip_by p s ++ r
              /\ forallb p l = true /\ forallb p r = true.
Proof.
  unfold strip_by.
  destruct (lstrip_by_split s) as [l [Hl Hpl]].
  destruct (rstrip_by_split (lstrip_by p s)) as [r [Hr Hpr]].
  exists l, r; split; [|auto].
  rewrite <- Hr; exact Hl.
Qed.

Lemma strip_by_hd (s : str) c t : strip_by p s = c :: t -> p c = false.
Proof.
  unfold strip_by; intros H.
  destruct (lstrip_by p s) as [|x u] eqn:E; [discriminate|].
  pose proof (lstrip_by_hd _ _ _ E) as Hx.
  destruct (rstrip_by_keeps_hd x u Hx) as [t' Ht'].
  rewrite Ht' in H; injection H as <- _; exact Hx.
Qed.

Lemma strip_by_last (s : str) t c : strip_by p s = t ++ [c] -> p c = false.
Proof. unfold strip_by; apply rstrip_by_last. Qed.

Lemma strip_by_idem (s : str) : strip_by p (strip_by p s) = strip_by p s.
Proof.
  destruct (strip_by p s) as [|c t] eqn:E; [reflexivity|].
  pose proof (strip_by_hd _ _ _ E) as Hc.
  unfold strip_by at 1.
  rewrite (lstrip_by_fix (c :: t) c t eq_refl Hc).
  rewrite <- E; unfold strip_by; apply rstrip_by_idem.
Qed.

End Strip.

Lemma forallb_quote (l : str) :
  forallb (fun c => existsb (N.eqb c) [quote]) l = true ->
  l = repeat quote (List.length l).
Proof.
  induction l as [|c l IH]; simpl; [reflexivity|].
  rewrite andb_true_iff, orb_false_r, N.eqb_eq.
  intros [-> H]; f_equal; exact (IH H).
Qed.

(** ** Splitting at commas *)

Lemma split_1_first (a b : str) (sep : char) :
  ~ In sep a -> split_1 (a ++ sep :: b) sep = [a; b].
Proof.
  induction a as [|c a IH]; simpl; intros H.
  - rewrite N.eqb_refl; reflexivity.
  - destruct (N.eqb_spec c sep) as [->|_]; [exfalso; auto|].
    rewrite IH by tauto; reflexivity.
Qed.

Lemma split_1_none (s : str) (sep : char) :
  ~ In sep s -> split_1 s sep = [s].
Proof.
  induction s as [|c s IH]; simpl; intros H; [reflexivity|].
  destruct (N.eqb_spec c sep) as [->|_]; [exfalso; auto|].
  rewrite IH by tauto; reflexivity.
Qed.

(** ** Escaping quotes *)

Lemma escape_unescape (s : str) :
  replace (replace s [quote] [quote; quote]) [quote; quote] [quote] = s.
Proof.
  unfold replace; induction s as [|c s IH]; [reflexivity|].
  cbn [replace_from startswith List.length Nat.sub].
  destruct (N.eqb_spec quote c) as [<-|Hc]; cbn [andb app].
  - cbn [replace_from startswith]. rewrite N.eqb_refl. cbn [andb app List.length Nat.sub].
    rewrite IH; reflexivity.
  - set (t := replace_from [quote] [quote; quote] 0 s) in *.
    cbn [replace_from startswith].
    destruct (N.eqb_spec quote c) as [E|_]; [contradiction|].
    cbn [andb]. rewrite IH; reflexivity.
Qed.

(** ** The record parser *)

Section ParserFacts.

Context {R : Runtime}.

Lemma parse_line_None_iff (line : str) :
  parse_line line = None <-> is_record line = false.
Proof.
  unfold parse_line, is_record.
  destruct (strip line) as [|c t] eqn:E; [tauto|].
  destruct (startswith (lower (c :: t)) (py "id,")); cbn [negb].
  - tauto.
  - destruct (split_1 (c :: t) comma) as [|p0 [|p1 [|p2 ps]]];
      split; intros Hx; discriminate Hx.
Qed.


(** C7, as the code has it. A line that is neither blank nor a header is
    trimmed and cut at its first comma only. The row id is the text
    before that comma, trimmed; the address is the text after it, later
    commas included, trimmed, then freed of one pair of enclosing quotes
    and of doubled quotes. A line without a comma is, trimmed, the row id
    as a whole, with the empty address. *)
Theorem parse_line_first_comma_only (line : str) :
  is_record line = true ->
  (forall a b,
      strip line = a ++ comma :: b -> ~ In comma a ->
      parse_line line =
        Some (strip a,
              replace (if startswith (strip b) [quote] && endswith (strip b) [quote]
                       then slice_1_m1 (strip b) else strip b)
                      [quote; quote] [quote]))
  /\ (~ In comma (strip line) -> parse_line line = Some (strip line, [])).
Proof.
  unfold is_record, parse_line.
  destruct (strip line) as [|c t] eqn:E; [discriminate|].
  intros H; apply negb_true_iff in H; rewrite H.
  split.
  - intros a b Hab Ha.
    rewrite Hab, split_1_first by assumption; reflexivity.
  - intros Hno.
    rewrite split_1_none by assumption.
    rewrite <- E; unfold strip; rewrite strip_by_idem; reflexivity.
Qed.

End ParserFacts.

(** ** Normalising the address *)

(** C5, as the code has it. The resolver removes the surrounding
    whitespace and then every leading and every trailing double quote,
    however many there are on either side; what is left neither starts
    nor ends with a quote, and whitespace inside the quotes stays. *)
Theorem original_of_strips_every_outer_quote (addr : str) :
  exists ws1 ws2 l r,
    addr = ws1 ++ repeat quote l ++ original_of addr ++ repeat quote r ++ ws2
    /\ forallb isspace ws1 = true /\ forallb isspace ws2 = true
    /\ strip addr = repeat quote l ++ original_of addr ++ repeat quote r
    /\ (forall t, original_of addr <> quote :: t)
    /\ (forall t, original_of addr <> t ++ [quote]).
Proof.
  unfold original_of, strip_chars, strip.
  set (isq := fun c : char => existsb (N.eqb c) [quote]).
  destruct (strip_by_split isspace addr) as [ws1 [ws2 [Ha [H1 H2]]]].
  destruct (strip_by_split isq (strip_by isspace addr)) as [ql [qr [Hs [Hl Hr]]]].
  exists ws1, ws2, (List.length ql), (List.length qr).
  rewrite <- (forallb_quote ql Hl), <- (forallb_quote qr Hr).
  repeat split; try assumption.
  - rewrite Ha at 1. rewrite Hs at 1.
    rewrite <- !app_assoc; reflexivity.
  - intros t Ht. apply strip_by_hd in Ht. discriminate.
  - intros t Ht. apply strip_by_last in Ht. discriminate.
Qed.

(** C5, as stated, fails: two quotes on either side are all removed. *)
Lemma original_of_not_a_single_pair :
  let addr := [quote; quote] ++ py "a" ++ [quote; quote] in
  original_of addr = py "a"
  /\ ~ (original_of addr = strip addr
        \/ strip addr = [quote] ++ original_of addr ++ [quote]).
Proof.
  split; [reflexivity|].
  intros [H|H]; vm_compute in H; discriminate.
Qed.

Example original_of_unmatched_quote :
  original_of ([quote] ++ py "a") = py "a".
Proof. reflexivity. Qed.

Example original_of_keeps_inner_space :
  original_of (py " " ++ [quote] ++ py " a " ++ [quote]) = py " a ".
Proof. reflexivity. Qed.

(** ** Traces *)

Lemma app_longer_prefix {A} (tr suf pre rest : list A) :
  tr ++ suf = pre ++ rest -> (List.length tr <= List.length pre)%nat ->
  exists pre', pre = tr ++ pre' /\ suf = pre' ++ rest.
Proof.
  revert pre; induction tr as [|x tr IH]; intros pre H Hlen; simpl in *.
  - exists pre; auto.
  - destruct pre as [|y pre]; simpl in *; [lia|].
    injection H as -> H.
    destruct (IH pre H) as [pre' [-> ->]]; [lia|].
    exists pre'; auto.
Qed.

Lemma snoc_eq_mid {A} (l pre post : list A) (x g : A) :
  l ++ [x] = pre ++ g :: post -> g <> x ->
  exists post', post = post' ++ [x] /\ l = pre ++ g :: post'.
Proof.
  intros H Hg.
  destruct (exists_last (l := post)) as [post' [y ->]].
  - intros ->. apply app_inj_tail in H as [_ H]. congruence.
  - change (pre ++ g :: post' ++ [y]) with (pre ++ (g :: post') ++ [y]) in H.
    rewrite app_assoc in H.
    apply app_inj_tail in H as [-> ->].
    exists post'; auto.
Qed.

Section RunFacts.

Context {R : Runtime}.
Variable GOOGLE_API_KEY : str.
Variable SESSION_get : trace -> str -> str -> http_outcome.

#[warnings="-notation-for-abbreviation"]
Local Notation query := (geocode_once GOOGLE_API_KEY SESSION_get).
#[warnings="-notation-for-abbreviation"]
Local Notation loop := (trimming_loop GOOGLE_API_KEY SESSION_get).
#[warnings="-notation-for-abbreviation"]
Local Notation resolve := (geocode_with_trimming GOOGLE_API_KEY SESSION_get).
#[warnings="-notation-for-abbreviation"]
Local Notation asked tr a := (reply (SESSION_get tr a GOOGLE_API_KEY)).

Lemma written_app (a b : trace) : written (a ++ b) = written a ++ written b.
Proof.
  induction a as [|e a IH]; simpl; [reflexivity|].
  destruct e; simpl; rewrite IH; reflexivity.
Qed.

Lemma written_resolver (suf : trace) :
  forallb resolver_event suf = true -> written suf = [].
Proof.
  induction suf as [|e suf IH]; simpl; [reflexivity|].
  destruct e; simpl; intros H; try discriminate; exact (IH H).
Qed.

Lemma geocode_once_run (addr : str) (tr : trace) :
  query addr tr = (asked tr addr, tr ++ [EvGet addr GOOGLE_API_KEY]).
Proof.
  unfold geocode_once, bind, session_get, lift, reply.
  destruct (SESSION_get tr addr GOOGLE_API_KEY); reflexivity.
Qed.

(** One turn of the loop, as a run. *)
Lemma trimming_loop_S (original : str) (parts : list str) (m : nat) (tr : trace) :
  loop original parts (S m) tr =
    let candidate := candidate_of parts (S m) in
    let tr1 := tr ++ [EvGet candidate GOOGLE_API_KEY] in
    match asked tr candidate with
    | Raise e => (Raise e, tr1)
    | Ok (lat, lng, status) =>
        if eq_str status (py "OK") then
          (Ok (Some (lat, lng)),
           if str_eqb candidate original then tr1
           else tr1 ++ [EvPrint (MsgFallback candidate)])
        else if eq_str status (py "ZERO_RESULTS") then
          loop original parts m
            (tr1 ++ [EvPrint (MsgTry candidate status)])
        else (Ok None, tr1 ++ [EvPrint (MsgTry candidate status)])
    end.
Proof.
  cbn [trimming_loop].
  unfold bind at 1. rewrite geocode_once_run.
  cbv zeta.
  destruct (asked tr (candidate_of parts (S m))) as [[[lat lng] status]|e];
    [|reflexivity].
  destruct (eq_str status (py "OK")) eqn:Hok.
  - unfold bind, emit, ret.
    destruct (str_eqb (candidate_of parts (S m)) original); reflexivity.
  - rewrite orb_false_r.
    unfold bind, emit, ret.
    destruct (eq_str status (py "ZERO_RESULTS")); reflexivity.
Qed.

(** A request the loop does not go on from is its last one, and settles
    what the loop hands back. *)
Lemma trimming_loop_trace (original : str) (parts : list str) (n : nat) :
  forall tr res tr',
    loop original parts n tr = (res, tr') ->
    exists suf,
      tr' = tr ++ suf /\ forallb resolver_event suf = true /\
      forall pre post a k,
        suf = pre ++ EvGet a k :: post ->
        goes_on (reply (SESSION_get (tr ++ pre) a k)) = false ->
        no_get post = true
        /\ res = left_loop (reply (SESSION_get (tr ++ pre) a k)).
Proof.
  induction n as [|m IH]; intros tr res tr' H.
  - injection H as <- <-. exists []. rewrite app_nil_r.
    repeat split; intros; destruct pre; discriminate.
  - rewrite trimming_loop_S in H. cbv zeta in H.
    set (cand := candidate_of parts (S m)) in *.
    destruct (asked tr cand) as [[[lat lng] st]|e] eqn:Hr.
    + destruct (eq_str st (py "OK")) eqn:Hok.
      * injection H as <- <-.
        exists (EvGet cand GOOGLE_API_KEY ::
                  if str_eqb cand original then []
                  else [EvPrint (MsgFallback cand)]).
        split; [destruct (str_eqb cand original);
                [reflexivity | rewrite <- app_assoc; reflexivity]|].
        split; [destruct (str_eqb cand original); reflexivity|].
        intros pre post a k Hd Hg.
        destruct pre as [|x pre]; simpl in Hd.
        -- injection Hd as <- <- <-. rewrite app_nil_r, Hr. unfold left_loop. rewrite Hok.
           split; [destruct (str_eqb cand original); reflexivity | reflexivity].
        -- injection Hd as _ Hd.
           destruct (str_eqb cand original); destruct pre as [|? [|? ?]];
             discriminate.
      * destruct (eq_str st (py "ZERO_RESULTS")) eqn:Hzr.
        -- destruct (IH _ _ _ H) as [suf [-> [Hsuf Hlast]]].
           exists (EvGet cand GOOGLE_API_KEY :: EvPrint (MsgTry cand st) :: suf).
           split; [rewrite <- !app_assoc; reflexivity|].
           split; [exact Hsuf|].
           intros pre post a k Hd Hg.
           destruct pre as [|x [|y pre]]; simpl in Hd.
           ++ injection Hd as <- <- <-. rewrite app_nil_r, Hr in Hg.
              unfold goes_on in Hg. rewrite Hok, Hzr in Hg. discriminate.
           ++ discriminate.
           ++ injection Hd as <- <- Hd.
              replace (tr ++ EvGet cand GOOGLE_API_KEY :: EvPrint (MsgTry cand st) :: pre)
                with (((tr ++ [EvGet cand GOOGLE_API_KEY]) ++ [EvPrint (MsgTry cand st)]) ++ pre)
                in * by (rewrite <- !app_assoc; reflexivity).
              exact (Hlast pre post a k Hd Hg).
        -- injection H as <- <-.
           exists [EvGet cand GOOGLE_API_KEY; EvPrint (MsgTry cand st)].
           split; [rewrite <- app_assoc; reflexivity|].
           split; [reflexivity|].
           intros pre post a k Hd Hg.
           destruct pre as [|x [|y [|z pre]]]; simpl in Hd; try discriminate.
           injection Hd as <- <- <-. rewrite app_nil_r, Hr. unfold left_loop. rewrite Hok.
           split; reflexivity.
    + injection H as <- <-.
      exists [EvGet cand GOOGLE_API_KEY].
      repeat split.
      all: destruct pre as [|x [|y pre]]; simpl in H; try discriminate.
      all: injection H as <- <- <-; try reflexivity.
      rewrite app_nil_r, Hr; reflexivity.
Qed.

Lemma final_of_left_loop (r : result (option float * option float * json)) :
  final r = match left_loop r with
            | Ok (Some ll) => Ok ll
            | Ok None => Ok (None, None)
            | Raise e => Raise e
            end.
Proof.
  destruct r as [[[lat lng] st]|e]; [|reflexivity].
  unfold final, left_loop. destruct (eq_str st (py "OK")); reflexivity.
Qed.

(** The same for the resolver as a whole. *)
Lemma resolver_trace (addr : str) (tr : trace) res tr' :
  resolve addr tr = (res, tr') ->
  exists suf,
    tr' = tr ++ suf /\ forallb resolver_event suf = true /\
    forall pre post a k,
      suf = pre ++ EvGet a k :: post ->
      goes_on (reply (SESSION_get (tr ++ pre) a k)) = false ->
      no_get post = true
      /\ res = final (reply (SESSION_get (tr ++ pre) a k)).
Proof.
  unfold geocode_with_trimming.
  destruct (original_of addr) as [|c0 t0] eqn:Ho.
  { intros H; injection H as <- <-. exists []. rewrite app_nil_r.
    repeat split; intros; destruct pre; discriminate. }
  destruct (segments (c0 :: t0)) as [|p0 ps] eqn:Hp.
  { intros H; injection H as <- <-. exists []. rewrite app_nil_r.
    repeat split; intros; destruct pre; discriminate. }
  unfold bind.
  destruct (loop (c0 :: t0) (p0 :: ps) (List.length (p0 :: ps)) tr)
    as [r tr1] eqn:Hl.
  apply trimming_loop_trace in Hl as [suf [-> [Hsuf Hlast]]].
  destruct r as [[ll|]|e]; intros H.
  - injection H as <- <-. exists suf. repeat split; try assumption.
    + eapply Hlast; eassumption.
    + destruct (Hlast _ _ _ _ H H0) as [_ Hr].
      rewrite final_of_left_loop, <- Hr; reflexivity.
  - injection H as <- <-.
    exists (suf ++ [EvPrint (MsgNotFound (c0 :: t0))]).
    split; [rewrite app_assoc; reflexivity|].
    split; [rewrite forallb_app, Hsuf; reflexivity|].
    intros pre post a k Hd Hg.
    apply snoc_eq_mid in Hd as [post' [-> Hd]]; [|discriminate].
    destruct (Hlast _ _ _ _ Hd Hg) as [Hn Hr].
    split.
    + unfold no_get in *. rewrite forallb_app, Hn. reflexivity.
    + rewrite final_of_left_loop, <- Hr; reflexivity.
  - injection H as <- <-. exists suf. repeat split; try assumption.
    + eapply Hlast; eassumption.
    + destruct (Hlast _ _ _ _ H H0) as [_ Hr].
      rewrite final_of_left_loop, <- Hr; reflexivity.
Qed.

(** The resolver never pauses: whatever it adds to the trace holds no
    [time.sleep]. *)
Lemma resolver_never_pauses (addr : str) (tr : trace) res tr' :
  resolve addr tr = (res, tr') ->
  exists suf, tr' = tr ++ suf /\ existsb is_sleep suf = false.
Proof.
  intros H. apply resolver_trace in H as [suf [-> [Hsuf _]]].
  exists suf. split; [reflexivity|].
  induction suf as [|e suf IH]; [reflexivity|].
  simpl in *. apply andb_true_iff in Hsuf as [He Hsuf].
  rewrite (IH Hsuf). destruct e; try discriminate; reflexivity.
Qed.

(** C1. When a request sent by the resolver is answered with a status that
    is neither OK nor ZERO_RESULTS, the resolver sends no further request
    (no shorter candidate is tried) and returns absent coordinates. *)
Theorem terminal_status_stops_truncation
    (addr : str) (tr : trace) res tr' pre post a k data status :
  resolve addr tr = (res, tr') ->
  tr' = pre ++ EvGet a k :: post ->
  (List.length tr <= List.length pre)%nat ->
  SESSION_get pre a k = Body data ->
  py_get data (py "status") (JStr (py "UNKNOWN")) = Ok status ->
  eq_str status (py "OK") = false ->
  eq_str status (py "ZERO_RESULTS") = false ->
  res = Ok (None, None) /\ no_get post = true.
Proof.
  intros Hrun Htr Hlen Hget Hst Hok Hzr.
  apply resolver_trace in Hrun as [suf [-> [_ Hlast]]].
  apply app_longer_prefix in Htr as [pre' [-> Hd]]; [|assumption].
  assert (Hr : reply (SESSION_get (tr ++ pre') a k) = Ok (None, None, status)).
  { rewrite Hget. unfold reply, decode. rewrite Hst. unfold rbind.
    rewrite Hok. reflexivity. }
  destruct (Hlast _ _ _ _ Hd) as [Hn Hres].
  - rewrite Hr. unfold goes_on. rewrite Hzr. apply andb_false_r.
  - rewrite Hr in Hres. unfold final in Hres. rewrite Hok in Hres. auto.
Qed.

(** C10. When a request is answered with status OK and an empty list of
    results, the resolver sends no further request and returns absent
    coordinates: it does not go on to a shorter candidate. *)
Theorem ok_without_results_stops_truncation
    (addr : str) (tr : trace) res tr' pre post a k data :
  resolve addr tr = (res, tr') ->
  tr' = pre ++ EvGet a k :: post ->
  (List.length tr <= List.length pre)%nat ->
  SESSION_get pre a k = Body data ->
  py_get data (py "status") (JStr (py "UNKNOWN")) = Ok (JStr (py "OK")) ->
  py_get data (py "results") (JArr []) = Ok (JArr []) ->
  res = Ok (None, None) /\ no_get post = true.
Proof.
  intros Hrun Htr Hlen Hget Hst Hres0.
  apply resolver_trace in Hrun as [suf [-> [_ Hlast]]].
  apply app_longer_prefix in Htr as [pre' [-> Hd]]; [|assumption].
  assert (Hr : reply (SESSION_get (tr ++ pre') a k)
               = Ok (None, None, JStr (py "OK"))).
  { rewrite Hget. unfold reply, decode. rewrite Hst. unfold rbind.
    change (eq_str (JStr (py "OK")) (py "OK")) with true. cbn [negb].
    rewrite Hres0. reflexivity. }
  destruct (Hlast _ _ _ _ Hd) as [Hn Hres].
  - rewrite Hr. reflexivity.
  - rewrite Hr in Hres. auto.
Qed.

(** C6. When the full candidate is answered with status OK and at least
    one result, the resolver returns the coordinates of the first result,
    and the request for the full candidate is the only one it sends. *)
Theorem full_match_returns_at_once
    (addr : str) (tr : trace) data r rs lat lng :
  let original := original_of addr in
  let parts := segments original in
  let candidate := join (py ", ") parts in
  parts <> [] ->
  SESSION_get tr candidate GOOGLE_API_KEY = Body data ->
  py_get data (py "status") (JStr (py "UNKNOWN")) = Ok (JStr (py "OK")) ->
  py_get data (py "results") (JArr []) = Ok (JArr (r :: rs)) ->
  first_location (JArr (r :: rs)) = Ok (lat, lng) ->
  resolve addr tr =
    (Ok (Some lat, Some lng),
     tr ++ EvGet candidate GOOGLE_API_KEY ::
       (if str_eqb candidate original then []
        else [EvPrint (MsgFallback candidate)])).
Proof.
  intros original parts candidate Hparts Hget Hst Hres Hloc.
  unfold geocode_with_trimming. fold original.
  destruct original as [|c0 t0] eqn:Ho; [exfalso; apply Hparts; reflexivity|].
  fold parts.
  destruct parts as [|p0 ps] eqn:Hp; [congruence|].
  unfold bind.
  change (List.length (p0 :: ps)) with (S (List.length ps)).
  rewrite trimming_loop_S. cbv zeta.
  assert (Hc : candidate_of (p0 :: ps) (S (List.length ps)) = candidate).
  { unfold candidate_of, candidate.
    change (S (List.length ps)) with (List.length (p0 :: ps)).
    rewrite firstn_all. reflexivity. }
  rewrite Hc.
  assert (Hr : asked tr candidate = Ok (Some lat, Some lng, JStr (py "OK"))).
  { rewrite Hget. unfold reply, decode. rewrite Hst. unfold rbind at 1.
    change (eq_str (JStr (py "OK")) (py "OK")) with true. cbn [negb].
    rewrite Hres. unfold rbind at 1. cbn [truthy negb].
    rewrite Hloc. reflexivity. }
  rewrite Hr.
  change (eq_str (JStr (py "OK")) (py "OK")) with true. cbv iota.
  unfold ret.
  destruct (str_eqb candidate (c0 :: t0));
    [reflexivity | rewrite <- app_assoc; reflexivity].
Qed.

(** ** The batch driver *)

#[warnings="-notation-for-abbreviation"]
Local Notation step := (main_step GOOGLE_API_KEY SESSION_get).
#[warnings="-notation-for-abbreviation"]
Local Notation run := (main_loop GOOGLE_API_KEY SESSION_get).

Lemma encodable_app (a b : str) :
  encodable (a ++ b) = encodable a && encodable b.
Proof. apply forallb_app. Qed.

Lemma encodable_replace_from (old new : str) (skip : nat) (s : str) :
  encodable new = true -> encodable s = true ->
  encodable (replace_from old new skip s) = true.
Proof.
  intros Hnew. revert skip.
  induction s as [|c s IH]; intros skip Hs; [reflexivity|].
  simpl in Hs. apply andb_true_iff in Hs as [Hc Hs].
  cbn [replace_from]. destruct skip as [|k]; [|exact (IH k Hs)].
  destruct (startswith (c :: s) old).
  - rewrite encodable_app, Hnew. exact (IH _ Hs).
  - simpl. rewrite Hc. exact (IH _ Hs).
Qed.

Lemma encodable_coord_str (x : option float) :
  float_text_encodable -> encodable (coord_str x) = true.
Proof. intros H. destruct x; [apply H | reflexivity]. Qed.

Lemma encodable_output_row (row_id addr : str) (lat lng : option float) :
  encodable row_id = true -> encodable addr = true ->
  encodable (coord_str lat) = true -> encodable (coord_str lng) = true ->
  encodable (output_row row_id addr lat lng) = true.
Proof.
  intros Hid Haddr Hlat Hlng. unfold output_row, replace.
  rewrite !encodable_app, Hid, Hlat, Hlng.
  rewrite (encodable_replace_from [quote] [quote; quote] 0 addr eq_refl Haddr).
  reflexivity.
Qed.

Lemma f_out_write_ok (s : str) (tr : trace) :
  encodable s = true -> f_out_write s tr = (Ok tt, tr ++ [EvWrite s]).
Proof. unfold f_out_write. intros ->. reflexivity. Qed.

Lemma f_out_write_fails (s : str) (tr : trace) :
  encodable s = false -> f_out_write s tr = (Raise UnicodeEncodeError, tr).
Proof. unfold f_out_write. intros ->. reflexivity. Qed.

Lemma main_loop_cons (line : str) (rest : list str) (tr tr1 : trace) :
  step line tr = (Ok tt, tr1) -> run (line :: rest) tr = run rest tr1.
Proof. intros H. cbn [main_loop]. unfold bind. rewrite H. reflexivity. Qed.

Lemma main_loop_stops (line : str) (rest : list str) (tr tr1 : trace) e :
  step line tr = (Raise e, tr1) -> run (line :: rest) tr = (Raise e, tr1).
Proof. intros H. cbn [main_loop]. unfold bind. rewrite H. reflexivity. Qed.

Lemma main_step_skip (line : str) (tr : trace) :
  parse_line line = None -> step line tr = (Ok tt, tr).
Proof. unfold main_step. intros ->. reflexivity. Qed.

(** The turn for a record with an empty address, whether or not its row
    can be encoded. *)
Lemma main_step_empty_run (line : str) (tr : trace) (row_id : str) :
  parse_line line = Some (row_id, []) ->
  step line tr =
    if encodable row_id
    then (Ok tt,
          tr ++ [EvPrint (MsgEmpty row_id);
                 EvWrite (row_id ++ [comma; quote; quote; comma; comma; newline]);
                 EvFlush])
    else (Raise UnicodeEncodeError, tr ++ [EvPrint (MsgEmpty row_id)]).
Proof.
  unfold main_step. intros ->. unfold bind, emit, f_out_write.
  rewrite encodable_app.
  change (encodable [comma; quote; quote; comma; comma; newline]) with true.
  rewrite andb_true_r.
  destruct (encodable row_id); [rewrite <- !app_assoc|]; reflexivity.
Qed.

Lemma main_step_empty (line : str) (tr : trace) (row_id : str) :
  parse_line line = Some (row_id, []) ->
  encodable row_id = true ->
  step line tr =
    (Ok tt, tr ++ [EvPrint (MsgEmpty row_id);
                   EvWrite (row_id ++ [comma; quote; quote; comma; comma; newline]);
                   EvFlush]).
Proof.
  intros Hp He. rewrite (main_step_empty_run _ tr _ Hp), He. reflexivity.
Qed.

(** The turn for a record that goes to the resolver, whether or not its
    row can be encoded. *)
Lemma main_step_resolved (line : str) (tr : trace) (row_id addr : str) :
  parse_line line = Some (row_id, addr) -> addr <> [] ->
  step line tr =
    let ran := resolve addr tr in
    let ll := resolved (fst ran) in
    let row := output_row row_id addr (fst ll) (snd ll) in
    let tr1 := snd ran ++ [EvPrint (turn_message row_id addr (fst ran))] in
    if encodable row
    then (Ok tt, tr1 ++ [EvWrite row; EvFlush; EvSleep DELAY_SEC])
    else (Raise UnicodeEncodeError, tr1).
Proof.
  unfold main_step. intros -> Hne.
  destruct addr as [|c t]; [congruence|].
  unfold bind, try_except, emit, ret, f_out_write.
  destruct (resolve (c :: t) tr) as [[ll|e] tr1];
    cbn [fst snd resolved turn_message];
    match goal with
    | |- context [encodable ?row] => destruct (encodable row)
    end;
    rewrite <- ?app_assoc; reflexivity.
Qed.

Lemma flushed_app (a b : trace) :
  flushed a = true -> flushed b = true -> flushed (a ++ b) = true.
Proof.
  intros Ha Hb. induction a as [|e a IH]; [exact Hb|].
  destruct e; try exact (IH Ha).
  cbn [app flushed] in *.
  destruct a as [|[] a]; try discriminate.
  exact (IH Ha).
Qed.

Lemma flushed_resolver (suf : trace) :
  forallb resolver_event suf = true -> flushed suf = true.
Proof.
  induction suf as [|e suf IH]; [reflexivity|].
  simpl. intros H. apply andb_true_iff in H as [He H].
  destruct e; try discriminate; exact (IH H).
Qed.

(** A turn only adds to the trace, flushes what it writes, and ends
    normally or with the exception of its write. *)
Lemma main_step_adds (line : str) (tr : trace) :
  exists res suf,
    step line tr = (res, tr ++ suf) /\ flushed suf = true
    /\ (res = Ok tt \/ res = Raise UnicodeEncodeError).
Proof.
  destruct (parse_line line) as [[row_id addr]|] eqn:Hp.
  - destruct addr as [|c t].
    + rewrite (main_step_empty_run _ tr _ Hp).
      destruct (encodable row_id); do 2 eexists;
        (split; [reflexivity|]); split; auto.
    + rewrite (main_step_resolved _ tr _ _ Hp) by discriminate. cbv zeta.
      destruct (resolve (c :: t) tr) as [r tr1] eqn:Hr.
      destruct (resolver_trace _ _ _ _ Hr) as [suf [-> [Hsuf _]]].
      cbn [fst snd].
      match goal with
      | |- context [encodable ?row] => destruct (encodable row)
      end; do 2 eexists; rewrite <- !app_assoc;
        (split; [reflexivity|]); split; auto;
        (apply flushed_app; [exact (flushed_resolver _ Hsuf) | reflexivity]).
  - exists (Ok tt), []. rewrite app_nil_r.
    split; [exact (main_step_skip _ tr Hp) | auto].
Qed.

Lemma main_loop_adds (f_in : list str) :
  forall tr, exists res suf,
    run f_in tr = (res, tr ++ suf) /\ flushed suf = true
    /\ (res = Ok tt \/ res = Raise UnicodeEncodeError).
Proof.
  induction f_in as [|line f_in IH]; intros tr.
  - exists (Ok tt), []. rewrite app_nil_r. auto.
  - destruct (main_step_adds line tr) as [r1 [s1 [Hs [H1 [-> | ->]]]]].
    + destruct (IH (tr ++ s1)) as [res [s2 [Hrun [H2 Hres]]]].
      exists res, (s1 ++ s2).
      rewrite (main_loop_cons _ _ _ _ Hs), app_assoc.
      split; [exact Hrun|]. split; [exact (flushed_app _ _ H1 H2) | exact Hres].
    + exists (Raise UnicodeEncodeError), s1.
      rewrite (main_loop_stops _ _ _ _ _ Hs). auto.
Qed.

Lemma main_loop_keeps (f_in : list str) (tr : trace) :
  exists suf, snd (run f_in tr) = tr ++ suf.
Proof.
  destruct (main_loop_adds f_in tr) as [res [suf [H _]]].
  exists suf. rewrite H. reflexivity.
Qed.




Lemma main_step_empty_run_row (line : str) (tr : trace) (row_id : str) :
  parse_line line = Some (row_id, []) ->
  step line tr =
    if encodable (output_row row_id [] None None)
    then (Ok tt,
          tr ++ [EvPrint (MsgEmpty row_id);
                 EvWrite (output_row row_id [] None None);
                 EvFlush])
    else (Raise UnicodeEncodeError, tr ++ [EvPrint (MsgEmpty row_id)]).
Proof.
  intros Hp. rewrite (main_step_empty_run _ tr _ Hp).
  assert (Hrow : encodable (output_row row_id [] None None)
                 = encodable row_id).
  { unfold output_row. rewrite encodable_app. exact (andb_true_r _). }
  rewrite Hrow. reflexivity.
Qed.

(** What a turn that writes [row], if the file takes it, leaves in the
    output of the turn and of the run. *)
Lemma turn_written (line : str) (rest : list str) (tr : trace)
    (row : str) (done stopped : trace) :
  step line tr
  = (if encodable row then (Ok tt, done)
     else (Raise UnicodeEncodeError, stopped)) ->
  written done = written tr ++ [row] ->
  written stopped = written tr ->
  written (snd (step line tr))
  = written tr ++ (if encodable row then [row] else [])
  /\ (exists more,
        written (snd (run (line :: rest) tr))
        = written tr ++ (if encodable row then [row] else []) ++ more)
  /\ (encodable row = true -> fst (step line tr) = Ok tt).
Proof.
  intros Hs Hdone Hstopped.
  destruct (encodable row).
  - rewrite (main_loop_cons _ rest _ _ Hs), Hs. cbn [fst snd].
    split; [exact Hdone|]. split; [|reflexivity].
    destruct (main_loop_keeps rest done) as [suf ->].
    exists (written suf). rewrite written_app, Hdone, <- app_assoc.
    reflexivity.
  - rewrite (main_loop_stops _ rest _ _ _ Hs), Hs. cbn [fst snd].
    rewrite Hstopped, app_nil_r.
    split; [reflexivity|]. split; [|discriminate].
    exists []. rewrite app_nil_r. reflexivity.
Qed.

(** C4. Whatever the turn of a record writes to the output file is the
    one row that carries, between its quotes, the address as it was
    parsed (inner quotes doubled, so that it is read back unchanged)
    and, of the resolver, the two coordinates only: no candidate reaches
    the file. The row is written when it can be encoded, and then it is
    in the output of the whole run; otherwise the turn writes nothing. *)
Theorem output_row_keeps_parsed_address
    (line : str) (rest : list str) (tr : trace) (row_id addr : str) :
  parse_line line = Some (row_id, addr) ->
  let ll := match addr with
            | [] => (None, None)
            | _ :: _ => resolved (fst (resolve addr tr))
            end in
  let row := row_id ++ [comma; quote]
               ++ replace addr [quote] [quote; quote] ++ [quote; comma]
               ++ coord_str (fst ll) ++ [comma] ++ coord_str (snd ll)
               ++ [newline] in
  (written (snd (step line tr))
   = written tr ++ (if encodable row then [row] else [])
   /\ (exists more,
         written (snd (run (line :: rest) tr))
         = written tr ++ (if encodable row then [row] else []) ++ more)
   /\ (encodable row = true -> fst (step line tr) = Ok tt))
  /\ replace (replace addr [quote] [quote; quote]) [quote; quote] [quote]
     = addr.
Proof.
  intros Hp. cbv zeta.
  split; [|apply escape_unescape].
  destruct addr as [|c t].
  - apply (turn_written line rest tr
             (output_row row_id [] None None) _ _
             (main_step_empty_run_row _ tr _ Hp)).
    + rewrite written_app. reflexivity.
    + rewrite written_app. simpl. apply app_nil_r.
  - pose proof (main_step_resolved _ tr _ _ Hp) as Hs. cbv zeta in Hs.
    destruct (resolve (c :: t) tr) as [r tr1] eqn:Hr.
    destruct (resolver_trace _ _ _ _ Hr) as [suf [-> [Hsuf _]]].
    cbn [fst snd] in *.
    apply (turn_written line rest tr
             (output_row row_id (c :: t) (fst (resolved r)) (snd (resolved r)))
             _ _ (Hs ltac:(discriminate))).
    + rewrite !written_app, (written_resolver _ Hsuf).
      cbn [written app]. rewrite !app_nil_r. reflexivity.
    + rewrite !written_app, (written_resolver _ Hsuf).
      cbn [written app]. rewrite !app_nil_r. reflexivity.
Qed.

(** C8, as the code has it. A record with an empty address whose row id
    is text that the output file takes gets the row with an empty quoted
    address and two empty coordinates; no request is sent for it, and
    the driver goes on with the remaining lines. *)
Theorem empty_address_row_without_request
    (line : str) (rest : list str) (tr : trace) (row_id : str) :
  parse_line line = Some (row_id, []) ->
  encodable row_id = true ->
  let turn := [EvPrint (MsgEmpty row_id);
               EvWrite (row_id ++ [comma; quote; quote; comma; comma; newline]);
               EvFlush] in
  step line tr = (Ok tt, tr ++ turn)
  /\ run (line :: rest) tr = run rest (tr ++ turn)
  /\ exists later, snd (run (line :: rest) tr) = (tr ++ turn) ++ later.
Proof.
  intros Hp He turn.
  pose proof (main_step_empty _ tr _ Hp He) as Hs.
  split; [exact Hs|].
  rewrite (main_loop_cons _ rest _ _ Hs).
  split; [reflexivity | apply main_loop_keeps].
Qed.

(** C9, as the code has it. When the resolver raises an exception for a
    record whose row id and address are text that the output file
    takes, the driver catches it, writes the row of the record with both
    coordinates empty, pauses and goes on with the remaining lines. *)
Theorem resolver_exception_is_caught
    (line : str) (rest : list str) (tr tr1 : trace) (row_id addr : str) (e : exn) :
  parse_line line = Some (row_id, addr) ->
  addr <> [] ->
  resolve addr tr = (Raise e, tr1) ->
  encodable row_id = true -> encodable addr = true ->
  let turn := [EvPrint (MsgError row_id addr e);
               EvWrite (row_id ++ [comma; quote]
                          ++ replace addr [quote] [quote; quote]
                          ++ [quote; comma; comma; newline]);
               EvFlush; EvSleep DELAY_SEC] in
  step line tr = (Ok tt, tr1 ++ turn)
  /\ run (line :: rest) tr = run rest (tr1 ++ turn)
  /\ exists later, snd (run (line :: rest) tr) = (tr1 ++ turn) ++ later.
Proof.
  intros Hp Hne Hr Hid Haddr turn.
  assert (Hs : step line tr = (Ok tt, tr1 ++ turn)).
  { rewrite (main_step_resolved _ tr _ _ Hp Hne). cbv zeta.
    rewrite Hr. cbn [fst snd resolved turn_message].
    rewrite encodable_output_row by (assumption || reflexivity).
    rewrite <- app_assoc. reflexivity. }
  split; [exact Hs|].
  rewrite (main_loop_cons _ rest _ _ Hs).
  split; [reflexivity | apply main_loop_keeps].
Qed.

End RunFacts.

(** * Further facts *)

(** ** More on trimming and splitting *)

Lemma In_strip_by (p : char -> bool) (s : str) (c : char) :
  In c (strip_by p s) -> In c s.
Proof.
  destruct (strip_by_split p s) as [l [r [Hs _]]].
  intros H. rewrite Hs. apply in_or_app. right. apply in_or_app. left. exact H.
Qed.

Lemma rstrip_by_snoc_keep (p : char -> bool) (s : str) (c : char) :
  p c = false -> rstrip_by p (s ++ [c]) = s ++ [c].
Proof.
  intros Hc. induction s as [|x s IH]; simpl.
  - rewrite Hc. reflexivity.
  - rewrite IH. destruct s; reflexivity.
Qed.

Lemma rstrip_by_app_all (p : char -> bool) (s w : str) :
  forallb p w = true -> rstrip_by p (s ++ w) = rstrip_by p s.
Proof.
  intros Hw.
  assert (Hnil : rstrip_by p w = []).
  { induction w as [|x w IH]; [reflexivity|].
    simpl in *. apply andb_true_iff in Hw as [Hx Hw].
    rewrite (IH Hw), Hx. reflexivity. }
  induction s as [|x s IH]; simpl; [exact Hnil|].
  rewrite IH. reflexivity.
Qed.

Lemma strip_by_kept (p : char -> bool) (c d : char) (s : str) :
  p c = false -> p d = false -> strip_by p (c :: s ++ [d]) = c :: s ++ [d].
Proof.
  intros Hc Hd. unfold strip_by.
  rewrite (lstrip_by_fix p (c :: s ++ [d]) c (s ++ [d]) eq_refl Hc).
  exact (rstrip_by_snoc_keep p (c :: s) d Hd).
Qed.

Lemma strip_by_skip (p : char -> bool) (c : char) (s : str) :
  p c = true -> strip_by p (c :: s) = strip_by p s.
Proof. intros Hc. unfold strip_by. simpl. rewrite Hc. reflexivity. Qed.

Lemma split_1_inv (s : str) (sep : char) :
  (split_1 s sep = [s] /\ ~ In sep s)
  \/ exists a b, split_1 s sep = [a; b] /\ s = a ++ sep :: b /\ ~ In sep a.
Proof.
  induction s as [|c s IH]; simpl.
  - left. split; [reflexivity | tauto].
  - destruct (N.eqb_spec c sep) as [->|Hc].
    + right. exists [], s. repeat split. tauto.
    + destruct IH as [[-> Hno]|[a [b [-> [-> Hno]]]]].
      * left. split; [reflexivity|]. intros [H|H]; [congruence | tauto].
      * right. exists (c :: a), b. repeat split.
        intros [H|H]; [congruence | tauto].
Qed.

Lemma split_cons (s : str) (sep : char) :
  exists w ws, split s sep = w :: ws.
Proof.
  induction s as [|c s [w [ws IH]]]; simpl; [eauto|].
  destruct (c =? sep); [eauto|]. rewrite IH. eauto.
Qed.

Lemma split_parts_without_sep (s : str) (sep : char) :
  Forall (fun w => ~ In sep w) (split s sep).
Proof.
  induction s as [|c s IH]; simpl.
  - constructor; [tauto | constructor].
  - destruct (N.eqb_spec c sep) as [->|Hc].
    + constructor; [tauto | exact IH].
    + destruct (split s sep) as [|w ws]; [repeat constructor; simpl; intuition|].
      inversion IH as [|? ? Hw Hws]; subst.
      constructor; [|exact Hws].
      intros [H|H]; [congruence | tauto].
Qed.

Lemma split_at_sep (a b : str) (sep : char) :
  ~ In sep a -> split (a ++ sep :: b) sep = a :: split b sep.
Proof.
  induction a as [|c a IH]; simpl; intros H.
  - rewrite N.eqb_refl. reflexivity.
  - destruct (N.eqb_spec c sep) as [->|_]; [exfalso; auto|].
    rewrite IH by tauto. reflexivity.
Qed.

Lemma split_without_sep (a : str) (sep : char) :
  ~ In sep a -> split a sep = [a].
Proof.
  induction a as [|c a IH]; simpl; intros H; [reflexivity|].
  destruct (N.eqb_spec c sep) as [->|_]; [exfalso; auto|].
  rewrite IH by tauto. reflexivity.
Qed.

(** ** Loading the key *)

(** X1. A key that [load_api_key] returns is never empty and carries no
    whitespace at either end, whether it came from the environment or
    from the file. *)
Theorem loaded_key_is_trimmed
    (environ_key : option str) (key_file : read_outcome) (key : str) :
  load_api_key environ_key key_file = Key key ->
  key <> [] /\ strip key = key
  /\ (forall c t, key = c :: t -> isspace c = false)
  /\ (forall t c, key = t ++ [c] -> isspace c = false).
Proof.
  unfold load_api_key.
  set (v := match environ_key with Some v => v | None => [] end).
  assert (Hgen : forall s, strip s = key -> key <> [] ->
            key <> [] /\ strip key = key
            /\ (forall c t, key = c :: t -> isspace c = false)
            /\ (forall t c, key = t ++ [c] -> isspace c = false)).
  { intros s <- Hne. unfold strip. repeat split.
    - exact Hne.
    - apply strip_by_idem.
    - intros c t Hk. exact (strip_by_hd _ _ _ _ Hk).
    - intros t c Hk. exact (strip_by_last _ _ _ _ Hk). }
  destruct (strip v) as [|c t] eqn:Hv.
  - destruct key_file as [|why|s]; try discriminate.
    destruct (strip s) as [|c t] eqn:Hs; [discriminate|].
    intros H. injection H as <-. apply (Hgen s Hs). discriminate.
  - intros H. injection H as <-. apply (Hgen v Hv). discriminate.
Qed.

(** X2. A key in the environment that is not blank is the one used,
    whatever the state of the key file, also when the file cannot be
    read. *)
Theorem environment_key_comes_first
    (v : str) (key_file : read_outcome) :
  strip v <> [] -> load_api_key (Some v) key_file = Key (strip v).
Proof.
  unfold load_api_key. destruct (strip v); [congruence | reflexivity].
Qed.

(** X3. [load_api_key] ends the program with [SystemExit] exactly when
    the environment holds no key or a blank one and the key file is
    missing or blank; the text of the exit is always the same. *)
Theorem exit_when_no_key_anywhere
    (environ_key : option str) (key_file : read_outcome) (msg : str) :
  load_api_key environ_key key_file = SystemExit msg <->
  strip (match environ_key with Some v => v | None => [] end) = []
  /\ (key_file = NoFile \/ exists s, key_file = Text s /\ strip s = [])
  /\ msg = key_not_found.
Proof.
  unfold load_api_key.
  destruct (strip (match environ_key with Some v => v | None => [] end))
    as [|c t].
  - destruct key_file as [|why|s].
    + split.
      * intros H. injection H as <-. auto.
      * intros [_ [_ ->]]. reflexivity.
    + split; [discriminate|].
      intros [_ [[H|[s [H _]]] _]]; discriminate.
    + destruct (strip s) as [|c t] eqn:Hs.
      * split.
        -- intros H. injection H as <-. repeat split. right. eauto.
        -- intros [_ [_ ->]]. reflexivity.
      * split; [discriminate|].
        intros [_ [[H|[s' [H Hs']]] _]]; [discriminate|].
        injection H as <-. congruence.
  - split; [discriminate | intros [H _]; discriminate].
Qed.

(** ** More on the record parser *)

Section MoreParserFacts.

Context {R : Runtime}.

(** X4. The row id of a parsed record has no whitespace at either end
    and holds no comma. *)
Theorem row_id_is_trimmed_without_comma (line row_id addr : str) :
  parse_line line = Some (row_id, addr) ->
  strip row_id = row_id /\ ~ In comma row_id.
Proof.
  unfold parse_line.
  destruct (strip line) as [|c t] eqn:E; [discriminate|].
  destruct (startswith (lower (c :: t)) (py "id,")); [discriminate|].
  destruct (split_1_inv (c :: t) comma) as [[-> Hno]|[a [b [-> [Hs Hno]]]]].
  - intros H. injection H as <- _. split.
    + unfold strip. apply strip_by_idem.
    + intros H. apply Hno. exact (In_strip_by _ _ _ H).
  - intros H. injection H as <- _. split.
    + unfold strip. apply strip_by_idem.
    + intros H. apply Hno. exact (In_strip_by _ _ _ H).
Qed.

(** X5. Writing a record as a line, the address between double quotes
    with each inner quote doubled, and parsing that line gives the record
    back, whatever the address holds (commas, quotes, blanks at its
    ends); the row id has to be one the parser can yield: not empty,
    trimmed, without a comma, and the line not a header. *)
Theorem parse_quoted_line (row_id addr : str) :
  row_id <> [] -> strip row_id = row_id -> ~ In comma row_id ->
  is_record (quoted_line row_id addr) = true ->
  parse_line (quoted_line row_id addr) = Some (row_id, addr).
Proof.
  intros Hne Htrim Hno Hrec.
  set (esc := replace addr [quote] [quote; quote]) in *.
  destruct row_id as [|c t]; [congruence|].
  assert (Hc : isspace c = false).
  { unfold strip in Htrim. exact (strip_by_hd _ _ _ _ Htrim). }
  set (body := (t ++ [comma; quote] ++ esc) ++ [quote]).
  assert (Hq : quoted_line (c :: t) addr = c :: body ++ [newline]).
  { unfold quoted_line, body. fold esc.
    cbn [app]. rewrite <- !app_assoc. reflexivity. }
  assert (Hline : strip (quoted_line (c :: t) addr) = c :: body).
  { rewrite Hq. unfold strip, strip_by.
    rewrite (lstrip_by_fix isspace _ c _ eq_refl Hc).
    change (c :: body ++ [newline]) with ((c :: body) ++ [newline]).
    rewrite rstrip_by_app_all by reflexivity.
    exact (rstrip_by_snoc_keep isspace (c :: t ++ [comma; quote] ++ esc)
                               quote eq_refl). }
  unfold is_record in Hrec. unfold parse_line.
  rewrite Hline in *. apply negb_true_iff in Hrec. rewrite Hrec.
  replace (c :: body)
    with ((c :: t) ++ comma :: (quote :: esc ++ [quote]))
    by (unfold body; cbn [app]; rewrite <- !app_assoc; reflexivity).
  rewrite split_1_first by assumption.
  rewrite Htrim.
  assert (Hfield : strip (quote :: esc ++ [quote]) = quote :: esc ++ [quote]).
  { unfold strip. apply strip_by_kept; reflexivity. }
  rewrite Hfield.
  assert (Hends : endswith (quote :: esc ++ [quote]) [quote] = true).
  { unfold endswith. change (quote :: esc ++ [quote]) with ((quote :: esc) ++ [quote]).
    rewrite rev_unit. simpl. reflexivity. }
  rewrite Hends.
  change (startswith (quote :: esc ++ [quote]) [quote]) with true.
  cbn [andb]. unfold slice_1_m1. cbn [tl].
  rewrite removelast_last.
  unfold esc. rewrite escape_unescape. reflexivity.
Qed.

End MoreParserFacts.

(** X6. Doubling the quotes of an address loses nothing: two addresses
    with the same quoted form are the same address. *)
Theorem doubled_quotes_tell_addresses_apart (a b : str) :
  replace a [quote] [quote; quote] = replace b [quote] [quote; quote] ->
  a = b.
Proof.
  intros H.
  rewrite <- (escape_unescape a), <- (escape_unescape b), H. reflexivity.
Qed.

(** ** Segments and candidates *)

Lemma segments_skip_space (c : char) (s : str) :
  isspace c = true -> c <> comma -> segments (c :: s) = segments s.
Proof.
  intros Hc Hne. unfold segments. cbn [split].
  destruct (N.eqb_spec c comma) as [E|_]; [contradiction|].
  destruct (split_cons s comma) as [w [ws ->]].
  cbn [map]. unfold strip at 1. rewrite (strip_by_skip isspace c w Hc).
  reflexivity.
Qed.

Lemma tidy_firstn (n : nat) (ps : list str) :
  Forall tidy ps -> Forall tidy (firstn n ps).
Proof.
  revert n; induction ps as [|x ps IH]; intros [|n] H; simpl;
    try constructor.
  - inversion H; assumption.
  - inversion H; auto.
Qed.

Lemma segments_join (ps : list str) :
  Forall tidy ps -> segments (join (py ", ") ps) = ps.
Proof.
  induction ps as [|x ps IH]; intros H; [reflexivity|].
  inversion H as [|? ? [Hne [Htrim Hno]] Hps]; subst.
  destruct ps as [|y ps].
  - cbn [join]. unfold segments. rewrite split_without_sep by assumption.
    cbn [map filter]. rewrite Htrim. destruct x; [congruence | reflexivity].
  - change (join (py ", ") (x :: y :: ps))
      with (x ++ comma :: 32 :: join (py ", ") (y :: ps)).
    unfold segments. rewrite split_at_sep by assumption.
    cbn [map filter]. rewrite Htrim.
    destruct x as [|c t]; [congruence|]. f_equal.
    fold (segments (32 :: join (py ", ") (y :: ps))).
    rewrite segments_skip_space by (reflexivity || discriminate).
    exact (IH Hps).
Qed.

Lemma join_snoc (sep : str) (l : list str) (x : str) :
  l <> [] -> join sep (l ++ [x]) = join sep l ++ sep ++ x.
Proof.
  induction l as [|y l IH]; intros H; [congruence|].
  destruct l as [|z l].
  - reflexivity.
  - change (join sep ((y :: z :: l) ++ [x]))
      with (y ++ sep ++ join sep ((z :: l) ++ [x])).
    rewrite IH by discriminate.
    change (join sep (y :: z :: l)) with (y ++ sep ++ join sep (z :: l)).
    rewrite <- !app_assoc. reflexivity.
Qed.

Lemma firstn_succ (n : nat) (ps : list str) :
  (n < List.length ps)%nat ->
  firstn (S n) ps = firstn n ps ++ [nth n ps []].
Proof.
  revert n; induction ps as [|x ps IH]; intros n H; simpl in H; [lia|].
  destruct n as [|n]; [reflexivity|].
  change (firstn (S (S n)) (x :: ps)) with (x :: firstn (S n) ps).
  rewrite IH by lia. reflexivity.
Qed.

Lemma segments_tidy (original : str) : Forall tidy (segments original).
Proof.
  apply Forall_forall. intros p Hp. unfold segments in Hp.
  apply filter_In in Hp as [Hp Hne].
  apply in_map_iff in Hp as [w [<- Hw]].
  pose proof (split_parts_without_sep original comma) as Hall.
  rewrite Forall_forall in Hall.
  repeat split.
  - intros E. rewrite E in Hne. discriminate.
  - unfold strip. apply strip_by_idem.
  - intros H. apply (Hall w Hw). exact (In_strip_by _ _ _ H).
Qed.

(** X7. Every segment the resolver builds candidates from is not empty,
    has no whitespace at either end and holds no comma. *)
Theorem segments_are_tidy (original : str) :
  Forall (fun p => p <> [] /\ strip p = p /\ ~ In comma p)
         (segments original).
Proof. exact (segments_tidy original). Qed.

(** X8. The candidate built from the first [n] segments has exactly
    those segments: cutting and joining again changes nothing, so a
    candidate never has more segments than the address, and each shorter
    candidate has one segment less. *)
Theorem candidate_has_first_segments (original : str) (n : nat) :
  segments (candidate_of (segments original) n)
  = firstn n (segments original).
Proof.
  unfold candidate_of. apply segments_join. apply tidy_firstn.
  apply segments_tidy.
Qed.

(** X9. A candidate is the next shorter one followed by a comma, a blank
    and the segment that was cut off: truncation takes text away at the
    right end only. *)
Theorem candidate_extends_shorter_one (parts : list str) (n : nat) :
  (0 < n)%nat -> (n < List.length parts)%nat ->
  candidate_of parts (S n)
  = candidate_of parts n ++ py ", " ++ nth n parts [].
Proof.
  intros Hpos Hlt. unfold candidate_of.
  rewrite firstn_succ by assumption.
  apply join_snoc.
  destruct parts as [|x ps]; [simpl in Hlt; lia|].
  destruct n; [lia | discriminate].
Qed.

(** ** More on the resolver and the driver *)

Section MoreRunFacts.

Context {R : Runtime}.
Variable GOOGLE_API_KEY : str.
Variable SESSION_get : trace -> str -> str -> http_outcome.

#[warnings="-notation-for-abbreviation"]
Local Notation loop := (trimming_loop GOOGLE_API_KEY SESSION_get).
#[warnings="-notation-for-abbreviation"]
Local Notation resolve := (geocode_with_trimming GOOGLE_API_KEY SESSION_get).
#[warnings="-notation-for-abbreviation"]
Local Notation step := (main_step GOOGLE_API_KEY SESSION_get).
#[warnings="-notation-for-abbreviation"]
Local Notation run := (main_loop GOOGLE_API_KEY SESSION_get).
#[warnings="-notation-for-abbreviation"]
Local Notation asked tr a := (reply (SESSION_get tr a GOOGLE_API_KEY)).
#[warnings="-notation-for-abbreviation"]
Local Notation nth_request parts n :=
  (fun i => (candidate_of parts (n - i), GOOGLE_API_KEY)).

Lemma requests_app (a b : trace) : requests (a ++ b) = requests a ++ requests b.
Proof.
  induction a as [|e a IH]; simpl; [reflexivity|].
  destruct e; simpl; rewrite IH; reflexivity.
Qed.

Lemma nth_request_shift (parts : list str) (m k : nat) :
  map (nth_request parts (S m)) (seq 0 (S k))
  = (candidate_of parts (S m), GOOGLE_API_KEY)
      :: map (nth_request parts m) (seq 0 k).
Proof.
  cbn [seq map]. f_equal.
  rewrite <- seq_shift, map_map. reflexivity.
Qed.

Lemma loop_requests (original : str) (parts : list str) (n : nat) :
  forall tr res tr',
    loop original parts n tr = (res, tr') ->
    exists k, (k <= n)%nat
      /\ requests tr' = requests tr ++ map (nth_request parts n) (seq 0 k).
Proof.
  induction n as [|m IH]; intros tr res tr' H.
  - injection H as <- <-. exists 0%nat. split; [lia|].
    simpl. rewrite app_nil_r. reflexivity.
  - rewrite trimming_loop_S in H. cbv zeta in H.
    set (cand := candidate_of parts (S m)) in *.
    assert (Hone : forall tail, requests tail = [] ->
              requests ((tr ++ [EvGet cand GOOGLE_API_KEY]) ++ tail)
              = requests tr ++ map (nth_request parts (S m)) (seq 0 1)).
    { intros tail Ht. rewrite !requests_app, Ht, app_nil_r. reflexivity. }
    destruct (asked tr cand) as [[[lat lng] st]|e].
    + destruct (eq_str st (py "OK")).
      * injection H as <- <-. exists 1%nat. split; [lia|].
        destruct (str_eqb cand original).
        -- rewrite <- (app_nil_r (tr ++ _)). apply Hone. reflexivity.
        -- apply Hone. reflexivity.
      * destruct (eq_str st (py "ZERO_RESULTS")).
        -- destruct (IH _ _ _ H) as [k [Hk Hreq]].
           exists (S k). split; [lia|].
           rewrite Hreq, nth_request_shift, !requests_app.
           simpl. rewrite app_nil_r, <- app_assoc. reflexivity.
        -- injection H as <- <-. exists 1%nat. split; [lia|].
           apply Hone. reflexivity.
    + injection H as <- <-. exists 1%nat. split; [lia|].
      rewrite <- (app_nil_r (tr ++ _)). apply Hone. reflexivity.
Qed.

(** X10. The requests of one resolver call are those for the candidates
    with all the segments, one segment less, and so on, in that order and
    without a gap; each carries the key, and there are at most as many
    as the address has segments. *)
Theorem requests_are_shrinking_candidates
    (addr : str) (tr : trace) res tr' :
  resolve addr tr = (res, tr') ->
  exists k,
    (k <= List.length (segments (original_of addr)))%nat
    /\ requests tr' =
         requests tr ++
           map (fun i =>
                  (candidate_of (segments (original_of addr))
                     (List.length (segments (original_of addr)) - i),
                   GOOGLE_API_KEY))
               (seq 0 k).
Proof.
  unfold geocode_with_trimming.
  destruct (original_of addr) as [|c0 t0].
  { intros H. injection H as <- <-. exists 0%nat. split; [lia|].
    simpl. rewrite app_nil_r. reflexivity. }
  destruct (segments (c0 :: t0)) as [|p0 ps].
  { intros H. injection H as <- <-. exists 0%nat. split; [lia|].
    simpl. rewrite app_nil_r. reflexivity. }
  unfold bind.
  destruct (loop (c0 :: t0) (p0 :: ps) (List.length (p0 :: ps)) tr)
    as [r tr1] eqn:Hl.
  apply loop_requests in Hl as [k [Hk Hreq]].
  intros H. exists k. split; [exact Hk|].
  destruct r as [[ll|]|e]; injection H as <- <-; try exact Hreq.
  rewrite requests_app, Hreq. simpl. rewrite app_nil_r. reflexivity.
Qed.



(** X12. An exception met at a request, be it a fault of the transport
    or an answer that cannot be decoded, leaves the resolver as it is:
    nothing catches it there, and no further request is sent. *)
Theorem exception_leaves_the_resolver
    (addr : str) (tr : trace) res tr' pre post a k (e : exn) :
  resolve addr tr = (res, tr') ->
  tr' = pre ++ EvGet a k :: post ->
  (List.length tr <= List.length pre)%nat ->
  (SESSION_get pre a k = Fault e
   \/ exists data, SESSION_get pre a k = Body data /\ decode data = Raise e) ->
  res = Raise e /\ no_get post = true.
Proof.
  intros Hrun Htr Hlen Hans.
  apply (resolver_trace GOOGLE_API_KEY SESSION_get) in Hrun
    as [suf [-> [_ Hlast]]].
  apply app_longer_prefix in Htr as [pre' [-> Hd]]; [|assumption].
  assert (Hr : reply (SESSION_get (tr ++ pre') a k) = Raise e).
  { destruct Hans as [->|[data [-> Hdec]]]; [reflexivity | exact Hdec]. }
  destruct (Hlast _ _ _ _ Hd) as [Hn Hres].
  - rewrite Hr. reflexivity.
  - rewrite Hr in Hres. auto.
Qed.

(** X13. [geocode_once] hands back either both coordinates or none, and
    both only with the status OK and a first result that has them. *)
Theorem coordinates_only_with_ok (data : json) lat lng status :
  decode data = Ok (lat, lng, status) ->
  (lat = None /\ lng = None)
  \/ (status = JStr (py "OK")
      /\ exists x y results,
           lat = Some x /\ lng = Some y
           /\ py_get data (py "results") (JArr []) = Ok results
           /\ truthy results = true
           /\ first_location results = Ok (x, y)).
Proof.
  unfold decode.
  destruct (py_get data (py "status") (JStr (py "UNKNOWN"))) as [st|e];
    [|discriminate].
  cbn [rbind].
  destruct (eq_str st (py "OK")) eqn:Hok; cbn [negb].
  - destruct (py_get data (py "results") (JArr [])) as [results|e];
      [|discriminate].
    cbn [rbind].
    destruct (truthy results) eqn:Ht; cbn [negb].
    + destruct (first_location results) as [[x y]|e] eqn:Hloc;
        [|discriminate].
      cbn [rbind fst snd]. intros H. injection H as <- <- <-.
      right. split.
      * destruct st; try discriminate. unfold eq_str in Hok.
        apply str_eqb_eq in Hok. rewrite Hok. reflexivity.
      * exists x, y, results. auto.
    + intros H. injection H as <- <- _. auto.
  - intros H. injection H as <- <- _. auto.
Qed.

Lemma resolve_without_segments (addr : str) (tr : trace) :
  segments (original_of addr) = [] -> resolve addr tr = (Ok (None, None), tr).
Proof.
  unfold geocode_with_trimming. intros H.
  destruct (original_of addr); [reflexivity|]. rewrite H. reflexivity.
Qed.

(** X14. A record whose address is not empty but has no segment (commas,
    quotes and blanks only) is not sent to the service: when its row id
    and address are text that the output file takes, its row is written
    with empty coordinates, and the pause is taken all the same. *)
Theorem record_without_segments_sends_nothing
    (line : str) (rest : list str) (tr : trace) (row_id addr : str) :
  parse_line line = Some (row_id, addr) ->
  addr <> [] ->
  segments (original_of addr) = [] ->
  encodable row_id = true -> encodable addr = true ->
  let turn := [EvPrint (MsgResult row_id addr None None);
               EvWrite (output_row row_id addr None None);
               EvFlush; EvSleep DELAY_SEC] in
  step line tr = (Ok tt, tr ++ turn)
  /\ run (line :: rest) tr = run rest (tr ++ turn)
  /\ exists later, snd (run (line :: rest) tr) = (tr ++ turn) ++ later.
Proof.
  intros Hp Hne Hseg Hid Haddr turn.
  assert (Hs : step line tr = (Ok tt, tr ++ turn)).
  { rewrite (main_step_resolved GOOGLE_API_KEY SESSION_get _ tr _ _ Hp Hne).
    cbv zeta. rewrite (resolve_without_segments addr tr Hseg).
    cbn [fst snd resolved turn_message].
    rewrite encodable_output_row by (assumption || reflexivity).
    rewrite <- app_assoc. reflexivity. }
  split; [exact Hs|].
  rewrite (main_loop_cons _ _ _ rest _ _ Hs).
  split; [reflexivity | apply main_loop_keeps].
Qed.

Lemma pauses_app (a b : trace) : pauses (a ++ b) = (pauses a + pauses b)%nat.
Proof. unfold pauses. rewrite filter_app, length_app. reflexivity. Qed.

Lemma pauses_resolver (suf : trace) :
  forallb resolver_event suf = true -> pauses suf = 0%nat.
Proof.
  unfold pauses. induction suf as [|e suf IH]; [reflexivity|].
  simpl. intros H. apply andb_true_iff in H as [He H].
  destruct e; try discriminate; exact (IH H).
Qed.

Lemma main_step_pauses (line : str) (tr : trace) :
  float_text_encodable ->
  match parse_line line with
  | Some r => encodable_record r = true
  | None => True
  end ->
  exists tr1,
    step line tr = (Ok tt, tr1)
    /\ pauses tr1 =
         (pauses tr +
            match parse_line line with
            | Some r => if has_address r then 1 else 0
            | None => 0
            end)%nat.
Proof.
  intros Hfloat Henc.
  destruct (parse_line line) as [[row_id addr]|] eqn:Hp.
  - apply andb_true_iff in Henc as [Hid Haddr]. cbn [fst snd] in Hid, Haddr.
    destruct addr as [|c t].
    + eexists. split; [exact (main_step_empty _ _ _ _ _ Hp Hid)|].
      rewrite pauses_app. reflexivity.
    + rewrite (main_step_resolved _ _ _ tr _ _ Hp) by discriminate. cbv zeta.
      destruct (resolve (c :: t) tr) as [r tr1] eqn:Hr.
      destruct (resolver_trace _ _ _ _ _ _ Hr) as [suf [-> [Hsuf _]]].
      cbn [fst snd].
      rewrite encodable_output_row
        by (assumption || apply encodable_coord_str; assumption).
      eexists. split; [reflexivity|].
      cbn [has_address snd].
      rewrite !pauses_app, (pauses_resolver _ Hsuf).
      unfold pauses. cbn [filter is_sleep List.length]. lia.
  - exists tr. split; [exact (main_step_skip _ _ _ tr Hp) | lia].
Qed.

Lemma main_loop_pauses (f_in : list str) :
  float_text_encodable ->
  forallb encodable_record (records f_in) = true ->
  forall tr, exists tr',
    run f_in tr = (Ok tt, tr')
    /\ pauses tr' =
         (pauses tr + List.length (filter has_address (records f_in)))%nat.
Proof.
  intros Hfloat.
  induction f_in as [|line f_in IH]; intros Hall tr.
  - exists tr. split; [reflexivity | simpl; lia].
  - unfold records in Hall. cbn [flat_map] in Hall.
    rewrite forallb_app in Hall. apply andb_true_iff in Hall as [Hline Hall].
    destruct (main_step_pauses line tr Hfloat) as [tr1 [Hs Hp1]].
    { destruct (parse_line line); [|exact I].
      cbn [forallb] in Hline. rewrite andb_true_r in Hline. exact Hline. }
    destruct (IH Hall tr1) as [tr' [Hrun Hp']].
    exists tr'. rewrite (main_loop_cons _ _ _ _ _ _ Hs).
    split; [exact Hrun|].
    rewrite Hp', Hp1. unfold records. cbn [flat_map].
    rewrite filter_app, length_app.
    destruct (parse_line line) as [r|]; [|simpl; lia].
    simpl. destruct (has_address r); simpl; lia.
Qed.

(** X15. When the row id and the address of every record are text that
    the output file takes, a run pauses once for each record whose
    address is not empty, whether its resolution found coordinates,
    found none, sent no request or raised; it never pauses for a skipped
    line or for a record with an empty address. *)
Theorem one_pause_per_resolved_record (f_in : list str) :
  float_text_encodable ->
  forallb encodable_record (records f_in) = true ->
  exists tr,
    main GOOGLE_API_KEY SESSION_get (Some f_in) [] = (Ok tt, tr)
    /\ pauses tr = List.length (filter has_address (records f_in)).
Proof.
  intros Hfloat Hall.
  unfold main, bind. rewrite f_out_write_ok by reflexivity. cbn [app].
  destruct (main_loop_pauses f_in Hfloat Hall
              [EvWrite (py "id,address,lat,lng" ++ [newline])])
    as [tr [Hrun Hp]].
  exists tr. split; [exact Hrun | exact Hp].
Qed.

(** X16. In every run, also one that a write ends with its exception,
    each text the output file took after the header is followed at once
    by a flush: no row waits in the buffer while the next record is
    resolved. *)
Theorem every_row_is_flushed (f_in : list str) :
  exists res suf,
    main GOOGLE_API_KEY SESSION_get (Some f_in) []
    = (res, EvWrite (py "id,address,lat,lng" ++ [newline]) :: suf)
    /\ flushed suf = true.
Proof.
  unfold main, bind. rewrite f_out_write_ok by reflexivity. cbn [app].
  destruct (main_loop_adds GOOGLE_API_KEY SESSION_get f_in
              [EvWrite (py "id,address,lat,lng" ++ [newline])])
    as [res [suf [Hrun [Hf _]]]].
  exists res, suf. split; [exact Hrun | exact Hf].
Qed.

(** X17. Blank lines and header lines are skipped wherever they stand in
    the input, not only at its start: the run is, event for event, the
    run on the input without them. *)
Theorem skipped_lines_leave_no_trace (f_in : list str) (tr : trace) :
  main GOOGLE_API_KEY SESSION_get (Some f_in) tr
  = main GOOGLE_API_KEY SESSION_get (Some (filter is_record f_in)) tr.
Proof.
  unfold main, bind.
  destruct (f_out_write (py "id,address,lat,lng" ++ [newline]) tr)
    as [[u|e] tr0]; [|reflexivity].
  revert tr0.
  induction f_in as [|line f_in IH]; intros tr0; [reflexivity|].
  cbn [filter].
  destruct (is_record line) eqn:Hrec.
  - cbn [main_loop]. unfold bind.
    destruct (step line tr0) as [[u'|e] tr1]; [apply IH | reflexivity].
  - apply parse_line_None_iff in Hrec.
    rewrite (main_loop_cons _ _ _ _ _ _ (main_step_skip _ _ _ tr0 Hrec)).
    apply IH.
Qed.

End MoreRunFacts.

(** ** Runs on the small service *)

#[local] Existing Instance demo_runtime.

Example parse_quoted :
  parse_line (py "1," ++ [quote] ++ py "Moscow, Main St 1" ++ [quote; newline])
  = Some (py "1", py "Moscow, Main St 1").
Proof. reflexivity. Qed.

Example parse_header : parse_line (py "ID,address") = None.
Proof. reflexivity. Qed.

Example parse_doubled_quotes :
  parse_line (py "2," ++ [quote] ++ py "a " ++ [quote; quote] ++ py "b"
                ++ [quote; quote; quote])
  = Some (py "2", py "a " ++ [quote] ++ py "b" ++ [quote]).
Proof. reflexivity. Qed.

Example split_keeps_empty_parts :
  split (py "a,,b, c") comma = [py "a"; []; py "b"; py " c"].
Proof. reflexivity. Qed.

Example segments_drop_blank_parts :
  segments (py "a, ,b , c,") = [py "a"; py "b"; py "c"].
Proof. reflexivity. Qed.

Lemma parse_line_first_comma_only_witness :
  let line := py " 7 ,Tver, Lenina 1" ++ [newline] in
  is_record line = true
  /\ parse_line line = Some (py "7", py "Tver, Lenina 1").
Proof.
  split; [reflexivity|].
  refine (proj1 (parse_line_first_comma_only
                   (py " 7 ,Tver, Lenina 1" ++ [newline]) eq_refl)
                (py "7 ") (py "Tver, Lenina 1") eq_refl _).
  intros [H|[H|[]]]; discriminate H.
Defined.

(** C7, as stated, fails: the blanks next to the comma belong neither to
    the row id nor to the address. *)
Lemma parse_line_trims_both_parts :
  let line := py "7 , x" in
  line = py "7 " ++ comma :: py " x"
  /\ ~ In comma (py "7 ")
  /\ is_record line = true
  /\ parse_line line <> Some (py "7 ", py " x")
  /\ parse_line line = Some (py "7", py "x").
Proof.
  repeat split; try reflexivity; try discriminate.
  intros [H|[H|[]]]; discriminate H.
Qed.

Lemma terminal_status_stops_truncation_witness :
  let ran := demo_resolve (py "Quota, x") [] in
  let pre := [EvGet (py "Quota, x") demo_key;
              EvPrint (MsgTry (py "Quota, x") (JStr (py "ZERO_RESULTS")))] in
  let post := [EvPrint (MsgTry (py "Quota") (JStr (py "OVER_QUERY_LIMIT")));
               EvPrint (MsgNotFound (py "Quota, x"))] in
  snd ran = pre ++ EvGet (py "Quota") demo_key :: post
  /\ fst ran = Ok (None, None) /\ no_get post = true.
Proof.
  intros ran pre post.
  split; [reflexivity|].
  apply (terminal_status_stops_truncation demo_key demo_service
           (py "Quota, x") [] (fst ran) (snd ran) pre post
           (py "Quota") demo_key
           (status_body "OVER_QUERY_LIMIT") (JStr (py "OVER_QUERY_LIMIT")));
    try reflexivity.
  simpl; lia.
Defined.

Lemma ok_without_results_stops_truncation_witness :
  let ran := demo_resolve (py "Nowhere, x") [] in
  let pre := [EvGet (py "Nowhere, x") demo_key;
              EvPrint (MsgTry (py "Nowhere, x") (JStr (py "ZERO_RESULTS")))] in
  let post := [EvPrint (MsgFallback (py "Nowhere"))] in
  snd ran = pre ++ EvGet (py "Nowhere") demo_key :: post
  /\ fst ran = Ok (None, None) /\ no_get post = true.
Proof.
  intros ran pre post.
  split; [reflexivity|].
  apply (ok_without_results_stops_truncation demo_key demo_service
           (py "Nowhere, x") [] (fst ran) (snd ran) pre post
           (py "Nowhere") demo_key (status_body "OK"));
    try reflexivity.
  simpl; lia.
Defined.

Lemma full_match_returns_at_once_witness :
  let full := py "Moscow, Central District, Main St 1" in
  segments (original_of (py " " ++ [quote] ++ full ++ [quote])) <> []
  /\ demo_resolve (py " " ++ [quote] ++ full ++ [quote]) []
     = (Ok (Some 5575%Z, Some 3761%Z), [EvGet full demo_key]).
Proof.
  split; [discriminate|].
  refine (full_match_returns_at_once demo_key demo_service
            (py " " ++ [quote] ++ py "Moscow, Central District, Main St 1" ++ [quote])
            [] (ok_body 5575 3761) _ [] 5575%Z 3761%Z _ eq_refl eq_refl eq_refl eq_refl).
  discriminate.
Defined.

Lemma digits_encodable (n : N) : encodable (digits n) = true.
Proof.
  unfold digits.
  assert (H : forall d, encodable (py (NilEmpty.string_of_uint d)) = true).
  { induction d; simpl; try reflexivity; exact IHd. }
  destruct (N.to_uint n); simpl; try reflexivity; apply H.
Qed.

Lemma demo_float_text_encodable : @float_text_encodable demo_runtime.
Proof.
  intros z. cbn [str_of_float demo_runtime]. unfold demo_str_of_float.
  rewrite !encodable_app, !digits_encodable.
  destruct (z <? 0)%Z; reflexivity.
Qed.



Lemma output_row_keeps_parsed_address_witness :
  let addr := py "Moscow, Central District, Main St 1, Apt 99999" in
  let line := py "2," ++ [quote] ++ addr ++ [quote; newline] in
  let row := py "2," ++ [quote] ++ addr ++ [quote] ++ py ",55.75,37.61"
               ++ [newline] in
  parse_line line = Some (py "2", addr)
  /\ (written (snd (main_step demo_key demo_service line [])) = [row]
      /\ (exists more,
            written (snd (main_loop demo_key demo_service [line; py "3,x"] []))
            = [row] ++ more)
      /\ (true = true ->
          fst (main_step demo_key demo_service line []) = Ok tt))
  /\ replace (replace addr [quote] [quote; quote]) [quote; quote] [quote]
     = addr.
Proof.
  split; [reflexivity|].
  exact (output_row_keeps_parsed_address demo_key demo_service
           (py "2," ++ [quote]
              ++ py "Moscow, Central District, Main St 1, Apt 99999"
              ++ [quote; newline])
           [py "3,x"] [] (py "2")
           (py "Moscow, Central District, Main St 1, Apt 99999") eq_refl).
Defined.

Example unencodable_address_writes_nothing :
  written (snd (main_step demo_key demo_service
                  (py "2,a" ++ [replacement_char]) []))
  = [].
Proof. reflexivity. Qed.

Lemma empty_address_row_without_request_witness :
  let line := py "3," ++ [quote; quote; newline] in
  let turn := [EvPrint (MsgEmpty (py "3"));
               EvWrite (py "3," ++ [quote; quote] ++ py ",," ++ [newline]);
               EvFlush] in
  (parse_line line = Some (py "3", []) /\ encodable (py "3") = true)
  /\ main_step demo_key demo_service line [] = (Ok tt, turn)
  /\ main_loop demo_key demo_service [line; py "4,???"] []
     = main_loop demo_key demo_service [py "4,???"] turn
  /\ exists later,
       snd (main_loop demo_key demo_service [line; py "4,???"] [])
       = turn ++ later.
Proof.
  split; [split; reflexivity|].
  exact (empty_address_row_without_request demo_key demo_service
           (py "3," ++ [quote; quote; newline]) [py "4,???"] [] (py "3")
           eq_refl eq_refl).
Defined.

(** C8, as stated, fails. The row id is the character that a byte
    without meaning in cp1251 is read as: the write raises, no row is
    written and the next line is not reached. *)
Lemma empty_address_row_not_written :
  let line := [replacement_char; comma] in
  parse_line line = Some ([replacement_char], [])
  /\ main_loop demo_key demo_service [line; py "2,b"] []
     = (Raise UnicodeEncodeError, [EvPrint (MsgEmpty [replacement_char])]).
Proof. split; reflexivity. Qed.

Lemma resolver_exception_is_caught_witness :
  let addr := py "Some Address" in
  let line := py "5," ++ [quote] ++ addr ++ [quote; newline] in
  let tr1 := [EvGet addr demo_key] in
  let e := RequestException (py "timed out") in
  let turn := [EvPrint (MsgError (py "5") addr e);
               EvWrite (py "5," ++ [quote] ++ addr ++ [quote] ++ py ",,"
                          ++ [newline]);
               EvFlush; EvSleep DELAY_SEC] in
  (parse_line line = Some (py "5", addr)
   /\ demo_resolve addr [] = (Raise e, tr1)
   /\ encodable (py "5") = true /\ encodable addr = true)
  /\ main_step demo_key demo_service line [] = (Ok tt, tr1 ++ turn)
  /\ main_loop demo_key demo_service [line; py "6,Quota"] []
     = main_loop demo_key demo_service [py "6,Quota"] (tr1 ++ turn)
  /\ exists later,
       snd (main_loop demo_key demo_service [line; py "6,Quota"] [])
       = (tr1 ++ turn) ++ later.
Proof.
  split; [repeat split|].
  refine (resolver_exception_is_caught demo_key demo_service
            (py "5," ++ [quote] ++ py "Some Address" ++ [quote; newline])
            [py "6,Quota"] [] [EvGet (py "Some Address") demo_key]
            (py "5") (py "Some Address")
            (RequestException (py "timed out"))
            eq_refl _ eq_refl eq_refl eq_refl).
  discriminate.
Defined.

(** C9, as stated, fails. The resolver raises and the exception is
    caught, but the row id is the character that a byte without meaning
    in cp1251 is read as: the write of the row raises outside the [try],
    no row is written and the next line is not reached. *)
Lemma caught_exception_then_write_raises :
  let line := [replacement_char] ++ py ",Some Address" in
  let e := RequestException (py "timed out") in
  parse_line line = Some ([replacement_char], py "Some Address")
  /\ demo_resolve (py "Some Address") []
     = (Raise e, [EvGet (py "Some Address") demo_key])
  /\ main_loop demo_key demo_service [line; py "6,Quota"] []
     = (Raise UnicodeEncodeError,
        [EvGet (py "Some Address") demo_key;
         EvPrint (MsgError [replacement_char] (py "Some Address") e)]).
Proof. repeat split. Qed.

(** C3, on the code. For the single line [1,a, b], both candidates being
    answered ZERO_RESULTS, the requests for [a, b] and for [a] follow each
    other with a console message between them and no pause: the only
    pause of the run comes after the row is written. *)
Lemma no_pause_between_candidates :
  let tr := snd (demo_main (Some [py "1,a, b"]) []) in
  tr = [EvWrite (py "id,address,lat,lng" ++ [newline]);
        EvGet (py "a, b") demo_key;
        EvPrint (MsgTry (py "a, b") (JStr (py "ZERO_RESULTS")));
        EvGet (py "a") demo_key;
        EvPrint (MsgTry (py "a") (JStr (py "ZERO_RESULTS")));
        EvPrint (MsgNotFound (py "a, b"));
        EvPrint (MsgResult (py "1") (py "a, b") None None);
        EvWrite (py "1," ++ [quote] ++ py "a, b" ++ [quote] ++ py ",," ++ [newline]);
        EvFlush;
        EvSleep DELAY_SEC]
  /\ paced tr = false.
Proof. split; reflexivity. Qed.

Example paced_between_records :
  paced (snd (demo_main (Some [py "1,a"; py "2,b"]) [])) = true.
Proof. reflexivity. Qed.

(** The scenarios of the specification. *)

Example scenario_1_full_match :
  written (snd (demo_main
    (Some [py "id,address" ++ [newline];
           py "1," ++ [quote] ++ py "Moscow, Central District, Main St 1"
             ++ [quote; newline]]) []))
  = [py "id,address,lat,lng" ++ [newline];
     py "1," ++ [quote] ++ py "Moscow, Central District, Main St 1" ++ [quote]
       ++ py ",55.75,37.61" ++ [newline]].
Proof. reflexivity. Qed.

Example scenario_2_shortened_match :
  snd (demo_main
    (Some [py "2," ++ [quote]
             ++ py "Moscow, Central District, Main St 1, Apt 99999"
             ++ [quote; newline]]) [])
  = [EvWrite (py "id,address,lat,lng" ++ [newline]);
     EvGet (py "Moscow, Central District, Main St 1, Apt 99999") demo_key;
     EvPrint (MsgTry (py "Moscow, Central District, Main St 1, Apt 99999")
                     (JStr (py "ZERO_RESULTS")));
     EvGet (py "Moscow, Central District, Main St 1") demo_key;
     EvPrint (MsgFallback (py "Moscow, Central District, Main St 1"));
     EvPrint (MsgResult (py "2")
                (py "Moscow, Central District, Main St 1, Apt 99999")
                (Some 5575%Z) (Some 3761%Z));
     EvWrite (py "2," ++ [quote]
                ++ py "Moscow, Central District, Main St 1, Apt 99999"
                ++ [quote] ++ py ",55.75,37.61" ++ [newline]);
     EvFlush;
     EvSleep DELAY_SEC].
Proof. reflexivity. Qed.

Example scenario_4_no_match :
  written (snd (demo_main (Some [py "4," ++ [quote] ++ py "???" ++ [quote]]) []))
  = [py "id,address,lat,lng" ++ [newline];
     py "4," ++ [quote] ++ py "???" ++ [quote] ++ py ",," ++ [newline]].
Proof. reflexivity. Qed.

Example scenario_5_fault_then_next :
  written (snd (demo_main (Some [py "5,Some Address"; py "6,Quota"]) []))
  = [py "id,address,lat,lng" ++ [newline];
     py "5," ++ [quote] ++ py "Some Address" ++ [quote] ++ py ",," ++ [newline];
     py "6," ++ [quote] ++ py "Quota" ++ [quote] ++ py ",," ++ [newline]].
Proof. reflexivity. Qed.

Example missing_input_writes_nothing :
  demo_main None [] = (Ok tt, [EvPrint MsgNoInput]).
Proof. reflexivity. Qed.

(** ** Further runs *)

Lemma loaded_key_is_trimmed_witness :
  load_api_key (Some (py " abc" ++ [newline])) NoFile = Key (py "abc")
  /\ py "abc" <> [] /\ strip (py "abc") = py "abc".
Proof.
  split; [reflexivity|].
  destruct (loaded_key_is_trimmed (Some (py " abc" ++ [newline])) NoFile
              (py "abc") eq_refl) as [H1 [H2 _]].
  split; assumption.
Defined.

Lemma environment_key_comes_first_witness :
  strip (py " abc ") <> []
  /\ load_api_key (Some (py " abc ")) (Unreadable (py "denied"))
     = Key (py "abc").
Proof.
  split; [discriminate|].
  apply (environment_key_comes_first (py " abc ") (Unreadable (py "denied"))).
  discriminate.
Defined.

Example key_from_file_when_environment_blank :
  load_api_key (Some (py "  ")) (Text (py "abc" ++ [newline])) = Key (py "abc").
Proof. reflexivity. Qed.

Lemma row_id_is_trimmed_without_comma_witness :
  parse_line (py " 7 , Tver, Lenina 1") = Some (py "7", py "Tver, Lenina 1")
  /\ strip (py "7") = py "7" /\ ~ In comma (py "7").
Proof.
  split; [reflexivity|].
  apply (row_id_is_trimmed_without_comma
           (py " 7 , Tver, Lenina 1") (py "7") (py "Tver, Lenina 1")).
  reflexivity.
Defined.

Lemma parse_quoted_line_witness :
  let addr := py " Tver, " ++ [quote] ++ py "Lenina" ++ [quote] ++ py " 1 " in
  is_record (quoted_line (py "7") addr) = true
  /\ parse_line (quoted_line (py "7") addr) = Some (py "7", addr).
Proof.
  split; [reflexivity|].
  apply (parse_quoted_line (py "7")
           (py " Tver, " ++ [quote] ++ py "Lenina" ++ [quote] ++ py " 1 "));
    try reflexivity; try discriminate.
  intros [H|[]]; discriminate H.
Defined.

Lemma doubled_quotes_tell_addresses_apart_witness :
  let a := py "a" ++ [quote] ++ py "b" in
  replace a [quote] [quote; quote] = replace a [quote] [quote; quote]
  /\ a = a.
Proof.
  split; [reflexivity|].
  apply (doubled_quotes_tell_addresses_apart
           (py "a" ++ [quote] ++ py "b") (py "a" ++ [quote] ++ py "b")).
  reflexivity.
Defined.

Lemma candidate_extends_shorter_one_witness :
  candidate_of [py "Moscow"; py "Main St 1"; py "Apt 9"] 3
  = candidate_of [py "Moscow"; py "Main St 1"; py "Apt 9"] 2
      ++ py ", " ++ py "Apt 9".
Proof.
  apply (candidate_extends_shorter_one
           [py "Moscow"; py "Main St 1"; py "Apt 9"] 2); simpl; lia.
Defined.

Lemma requests_are_shrinking_candidates_witness :
  exists k,
    (k <= 2)%nat
    /\ requests (snd (demo_resolve (py "Quota, x") []))
       = map (fun i => (candidate_of [py "Quota"; py "x"] (2 - i), demo_key))
             (seq 0 k).
Proof.
  exact (requests_are_shrinking_candidates demo_key demo_service
           (py "Quota, x") []
           (fst (demo_resolve (py "Quota, x") []))
           (snd (demo_resolve (py "Quota, x") [])) eq_refl).
Defined.


Lemma exception_leaves_the_resolver_witness :
  let ran := demo_resolve (py "Some Address, 5") [] in
  let pre := [EvGet (py "Some Address, 5") demo_key;
              EvPrint (MsgTry (py "Some Address, 5") (JStr (py "ZERO_RESULTS")))] in
  snd ran = pre ++ [EvGet (py "Some Address") demo_key]
  /\ fst ran = Raise (RequestException (py "timed out"))
  /\ no_get [] = true.
Proof.
  intros ran pre.
  split; [reflexivity|].
  apply (exception_leaves_the_resolver demo_key demo_service
           (py "Some Address, 5") [] (fst ran) (snd ran) pre []
           (py "Some Address") demo_key (RequestException (py "timed out")));
    try reflexivity.
  - simpl; lia.
  - left; reflexivity.
Defined.

Lemma coordinates_only_with_ok_witness :
  decode (ok_body 5575 3761) = Ok (Some 5575%Z, Some 3761%Z, JStr (py "OK"))
  /\ ((Some 5575%Z = None /\ Some 3761%Z = None)
      \/ (JStr (py "OK") = JStr (py "OK")
          /\ exists x y results,
               Some 5575%Z = Some x /\ Some 3761%Z = Some y
               /\ py_get (ok_body 5575 3761) (py "results") (JArr []) = Ok results
               /\ truthy results = true
               /\ first_location results = Ok (x, y))).
Proof.
  split; [reflexivity|].
  apply (coordinates_only_with_ok (ok_body 5575 3761)). reflexivity.
Defined.

Example malformed_answer_raises :
  decode (JObj [(py "status", JStr (py "OK"));
                (py "results", JArr [JObj []])])
  = Raise KeyError
  /\ decode (JArr []) = Raise AttributeError.
Proof. split; reflexivity. Qed.

Lemma record_without_segments_sends_nothing_witness :
  let line := py "9," ++ [quote] ++ py " , " ++ [quote] in
  let turn := [EvPrint (MsgResult (py "9") (py " , ") None None);
               EvWrite (py "9," ++ [quote] ++ py " , " ++ [quote] ++ py ",,"
                          ++ [newline]);
               EvFlush; EvSleep DELAY_SEC] in
  (parse_line line = Some (py "9", py " , ")
   /\ segments (original_of (py " , ")) = [])
  /\ main_step demo_key demo_service line [] = (Ok tt, turn)
  /\ main_loop demo_key demo_service [line; py "1,a"] []
     = main_loop demo_key demo_service [py "1,a"] turn
  /\ exists later,
       snd (main_loop demo_key demo_service [line; py "1,a"] [])
       = turn ++ later.
Proof.
  split; [split; reflexivity|].
  refine (record_without_segments_sends_nothing demo_key demo_service
            (py "9," ++ [quote] ++ py " , " ++ [quote]) [py "1,a"] []
            (py "9") (py " , ") eq_refl _ eq_refl eq_refl eq_refl).
  discriminate.
Defined.

Lemma one_pause_per_resolved_record_witness :
  let f_in := [py "id,address"; py "1,a, b"; py "3," ++ [quote; quote];
               py "5,Some Address"] in
  forallb encodable_record (records f_in) = true
  /\ exists tr,
       demo_main (Some f_in) [] = (Ok tt, tr)
       /\ pauses tr = 2%nat.
Proof.
  split; [reflexivity|].
  apply (one_pause_per_resolved_record demo_key demo_service
           [py "id,address"; py "1,a, b"; py "3," ++ [quote; quote];
            py "5,Some Address"]
           demo_float_text_encodable).
  reflexivity.
Defined.

Example flushed_also_when_a_write_raises :
  let ran := demo_main (Some [py "1,a"; [replacement_char; comma]; py "2,b"]) [] in
  fst ran = Raise UnicodeEncodeError
  /\ written (snd ran)
     = [py "id,address,lat,lng" ++ [newline];
        py "1," ++ [quote] ++ py "a" ++ [quote] ++ py ",," ++ [newline]]
  /\ flushed (tl (snd ran)) = true.
Proof. repeat split. Qed.

Example header_in_the_middle_is_skipped :
  written (snd (demo_main (Some [py "1,a"; py "Id,b"; []; py "2,c"]) []))
  = written (snd (demo_main (Some [py "1,a"; py "2,c"]) [])).
Proof. reflexivity. Qed.
